(** * Bifocals: the render-coordination state machine

    A shallow embedding of [bifocals.js] (both revisions carried by the
    repository) and the properties of its render gate, cancellation,
    renderer contract, registry, data, children and status helpers.

    Views live in an arena ([views], a list addressed by position), because
    the source shares them by reference: a child keeps a pointer to its
    parent, the parent a map of its children, and the adapter handed to a
    child writes into the parent's data.  Every method of the source is a
    computation in a state-and-exception monad over the [world]. *)

From stdpp Require Import gmap strings list fin_maps.

Set Default Proof Using "Type".

(** ** Data model *)

(** [render_states] of the source, in the order of their numeric codes. *)
Inductive render_states :=
  | RENDER_NOT_CALLED
  | RENDER_REQUESTED
  | RENDER_STARTED
  | RENDER_COMPLETE
  | RENDER_FAILED
  | RENDER_CANCELED.

#[global] Instance render_states_eq_dec : EqDecision render_states.
Proof. solve_decision. Defined.

Definition state_code (s : render_states) : nat :=
  match s with
  | RENDER_NOT_CALLED => 0
  | RENDER_REQUESTED => 1
  | RENDER_STARTED => 2
  | RENDER_COMPLETE => 3
  | RENDER_FAILED => 4
  | RENDER_CANCELED => 5
  end.

(** Position of a view in the arena. *)
Abbreviation addr := nat (only parsing).

(** Values stored in a view's [_data]: rendered child content and strings
    set by the application, or an error object (its message). *)
Inductive value :=
  | VString (s : string)
  | VError (msg : string).

#[global] Instance value_eq_dec : EqDecision value.
Proof. solve_decision. Defined.

(** The function held in a view's [_error] slot: the prototype's
    [bifocals_defaultError], or a function installed with [error (fn)],
    known by an identifier. *)
Inductive error_handler :=
  | bifocals_defaultError
  | user_handler (id : nat).

#[global] Instance error_handler_eq_dec : EqDecision error_handler.
Proof. solve_decision. Defined.

(** The object held in a view's [response] slot.
    - [NoResponse] is the prototype's [null].
    - [FakeResponse] is the object literal built by [child]: its [buffer],
      the [key] its [end] closes over, and a [statusCode] property should
      one be assigned.  The view it closes over ([new_view]) is the view
      whose slot holds it.
    - [ServerResponse] is the real sink, an object of the platform: the
      status code and headers it was given, the chunks written to it and
      how many times it was ended. *)
Inductive response_obj :=
  | NoResponse
  | FakeResponse (buffer : string) (key : string) (statusCode : option nat)
  | ServerResponse (statusCode : option nat) (headers : gmap string string)
                   (chunks : list string) (ended : nat).

Record Bifocals := mkBifocals {
  _child_views : gmap string addr;
  _data : gmap string value;
  render_state : render_states;
  parent : option addr;
  root : addr;
  content_type : option string;
  template : option string;
  dir : option string;
  response : response_obj;
  _error : error_handler
}.

Definition with_child_views (cv : gmap string addr) (v : Bifocals) : Bifocals :=
  mkBifocals cv (_data v) (render_state v) (parent v) (root v)
             (content_type v) (template v) (dir v) (response v) (_error v).

Definition with_data (d : gmap string value) (v : Bifocals) : Bifocals :=
  mkBifocals (_child_views v) d (render_state v) (parent v) (root v)
             (content_type v) (template v) (dir v) (response v) (_error v).

Definition with_render_state (s : render_states) (v : Bifocals) : Bifocals :=
  mkBifocals (_child_views v) (_data v) s (parent v) (root v)
             (content_type v) (template v) (dir v) (response v) (_error v).

Definition with_template (t : option string) (v : Bifocals) : Bifocals :=
  mkBifocals (_child_views v) (_data v) (render_state v) (parent v) (root v)
             (content_type v) t (dir v) (response v) (_error v).

Definition with_response (r : response_obj) (v : Bifocals) : Bifocals :=
  mkBifocals (_child_views v) (_data v) (render_state v) (parent v) (root v)
             (content_type v) (template v) (dir v) r (_error v).

Definition with_error (h : error_handler) (v : Bifocals) : Bifocals :=
  mkBifocals (_child_views v) (_data v) (render_state v) (parent v) (root v)
             (content_type v) (template v) (dir v) (response v) h.

Definition with_content_type (ct : option string) (v : Bifocals) : Bifocals :=
  mkBifocals (_child_views v) (_data v) (render_state v) (parent v) (root v)
             ct (template v) (dir v) (response v) (_error v).

Definition with_dir (d : option string) (v : Bifocals) : Bifocals :=
  mkBifocals (_child_views v) (_data v) (render_state v) (parent v) (root v)
             (content_type v) (template v) d (response v) (_error v).

Definition with_parent (p : option addr) (v : Bifocals) : Bifocals :=
  mkBifocals (_child_views v) (_data v) (render_state v) p (root v)
             (content_type v) (template v) (dir v) (response v) (_error v).

Definition with_root (r : addr) (v : Bifocals) : Bifocals :=
  mkBifocals (_child_views v) (_data v) (render_state v) (parent v) r
             (content_type v) (template v) (dir v) (response v) (_error v).

(** A function handed to a renderer's [error (fn)] or [end (fn)]: one of the
    two closures of [buildRenderer] over the view [_self], or any other
    function, known by an identifier. *)
Inductive callback :=
  | on_render_error (_self : addr)
  | on_render_end (_self : addr)
  | external_fn (id : nat).

(** The [error] property of a renderer: the prototype's [renderer_error], or
    the function [_error] put in its place, which remembers [err]. *)
Inductive error_method :=
  | renderer_error
  | pending_error (err : string).

(** The [end] property of a renderer, likewise. *)
Inductive end_method :=
  | renderer_end
  | pending_end.

(** A renderer object.  [r_view] is the view whose [_data] and [response] it
    was given by [buildRenderer] ([None] for a renderer built on its own);
    [r__error] and [r__end] are its own [_error] and [_end] properties
    ([None]: the prototype's defaults). *)
Record Renderer := mkRenderer {
  r_class : nat;
  r_view : option addr;
  r_error : error_method;
  r__error : option callback;
  r_end : end_method;
  r__end : option callback
}.

(** What [process.nextTick] was given. *)
Inductive task :=
  | render_parent_of (new_view : addr)        (* new_view.parent.render() *)
  | call_fn (fn : callback) (arg : option string).

(** One call of a renderer's [render (path)]; [inv_views] is the arena at that
    moment.  The path is [None] when [dir + template] is not a string. *)
Record invocation := mkInvocation {
  inv_renderer : nat;
  inv_view : option addr;
  inv_path : option string;
  inv_views : list Bifocals
}.

(** The state of the program: the arena of views, the renderer objects
    built so far, the [nextTick] queue (oldest task first), the registry
    [_renderers] (content type to renderer class), and two logs: the calls
    made to functions of the application ([calls]) and the calls of
    [render] on renderers ([invocations]). *)
Record world := mkWorld {
  views : list Bifocals;
  renderer_objs : list Renderer;
  ticks : list task;
  _renderers : gmap string nat;
  calls : list (nat * option string);
  invocations : list invocation
}.

Definition with_views (vs : list Bifocals) (w : world) : world :=
  mkWorld vs (renderer_objs w) (ticks w) (_renderers w) (calls w) (invocations w).

Definition with_renderer_objs (rs : list Renderer) (w : world) : world :=
  mkWorld (views w) rs (ticks w) (_renderers w) (calls w) (invocations w).

Definition with_ticks (ts : list task) (w : world) : world :=
  mkWorld (views w) (renderer_objs w) ts (_renderers w) (calls w) (invocations w).

Definition with_renderers (reg : gmap string nat) (w : world) : world :=
  mkWorld (views w) (renderer_objs w) (ticks w) reg (calls w) (invocations w).

Definition with_calls (cs : list (nat * option string)) (w : world) : world :=
  mkWorld (views w) (renderer_objs w) (ticks w) (_renderers w) cs (invocations w).

Definition with_invocations (ivs : list invocation) (w : world) : world :=
  mkWorld (views w) (renderer_objs w) (ticks w) (_renderers w) (calls w) ivs.

Definition empty_world : world := mkWorld [] [] [] ∅ [] [].

(** ** The monad of methods *)

(** What a method can throw.  [BadAddress] and [OutOfFuel] belong to the
    model: a position outside the arena (no reference of the program
    dangles), and a recursion deeper than the arena is long (the program
    would not return). *)
Inductive exn :=
  | Unsupported_content_type (content_type : string)
  | No_error_handler
  | TypeError
  | BadAddress
  | OutOfFuel.

(** A method returns or throws; either way it leaves a world. *)
Inductive res (A : Type) :=
  | Ret (a : A) (w : world)
  | Throw (e : exn) (w : world).
Arguments Ret {A} a w.
Arguments Throw {A} e w.

Definition M (A : Type) : Type := world → res A.

Definition ret {A} (a : A) : M A := λ w, Ret a w.
Definition throw {A} (e : exn) : M A := λ w, Throw e w.
Definition bind {A B} (m : M A) (k : A → M B) : M B :=
  λ w, match m w with
       | Ret a w' => k a w'
       | Throw e w' => Throw e w'
       end.

Notation "'let!' x ':=' m 'in' k" := (bind m (λ x, k))
  (at level 10, x name, m at level 100, k at level 200).
Notation "m '>>' k" := (bind m (λ _, k))
  (at level 100, k at level 200, right associativity).

Fixpoint for_each {A} (l : list A) (body : A → M unit) : M unit :=
  match l with
  | [] => ret tt
  | x :: l' => body x >> for_each l' body
  end.

Definition get_world : M world := λ w, Ret w w.
Definition put_world (w : world) : M unit := λ _, Ret tt w.

Definition get_view (a : addr) : M Bifocals :=
  λ w, match views w !! a with
       | Some v => Ret v w
       | None => Throw BadAddress w
       end.

Definition modify_view (a : addr) (f : Bifocals → Bifocals) : M unit :=
  λ w, match views w !! a with
       | Some v => Ret tt (with_views (<[a := f v]> (views w)) w)
       | None => Throw BadAddress w
       end.

Definition nextTick (t : task) : M unit :=
  λ w, Ret tt (with_ticks (ticks w ++ [t]) w).

(** ** JavaScript values the methods test or concatenate *)

(** Truthiness of a template: [null], [undefined] and the empty string are
    falsy. *)
Definition truthy (t : option string) : bool :=
  match t with
  | Some s => bool_decide (s ≠ "")
  | None => false
  end.

(** [this.dir + template]: [dir] is [null] when unset, the template argument
    [undefined] when omitted; the sum of the two non-strings is not a string. *)
Definition js_add (d t : option string) : option string :=
  match d, t with
  | Some d, Some t => Some (d +:+ t)
  | Some d, None => Some (d +:+ "undefined")
  | None, Some t => Some ("null" +:+ t)
  | None, None => None
  end.

(** ** The renderer registry *)

(** Property name a content type indexes [_renderers] with. *)
Definition registry_key (content_type : option string) : string :=
  default "null" content_type.

Definition addRenderer (content_type : string) (renderer : nat) : M unit :=
  λ w, Ret tt (with_renderers (<[content_type := renderer]> (_renderers w)) w).

Definition getRenderer (content_type : option string) : M nat :=
  λ w, match _renderers w !! registry_key content_type with
       | Some renderer => Ret renderer w
       | None => Throw (Unsupported_content_type (registry_key content_type)) w
       end.

(** ** The Renderer base object (revision [part_000]) *)

Definition new_Renderer (class : nat) (v : option addr) : M nat :=
  λ w, Ret (length (renderer_objs w))
           (with_renderer_objs
              (renderer_objs w ++ [mkRenderer class v renderer_error None renderer_end None]) w).

Definition get_renderer (r : nat) : M Renderer :=
  λ w, match renderer_objs w !! r with
       | Some o => Ret o w
       | None => Throw BadAddress w
       end.

Definition modify_renderer (r : nat) (f : Renderer → Renderer) : M unit :=
  λ w, match renderer_objs w !! r with
       | Some o => Ret tt (with_renderer_objs (<[r := f o]> (renderer_objs w)) w)
       | None => Throw BadAddress w
       end.

Definition with_r_error (m : error_method) (o : Renderer) : Renderer :=
  mkRenderer (r_class o) (r_view o) m (r__error o) (r_end o) (r__end o).
Definition with_r__error (fn : option callback) (o : Renderer) : Renderer :=
  mkRenderer (r_class o) (r_view o) (r_error o) fn (r_end o) (r__end o).
Definition with_r_end (m : end_method) (o : Renderer) : Renderer :=
  mkRenderer (r_class o) (r_view o) (r_error o) (r__error o) m (r__end o).
Definition with_r__end (fn : option callback) (o : Renderer) : Renderer :=
  mkRenderer (r_class o) (r_view o) (r_error o) (r__error o) (r_end o) fn.

(** A call of a function that is not part of the module is recorded. *)
Definition call_external (id : nat) (arg : option string) : M unit :=
  λ w, Ret tt (with_calls (calls w ++ [(id, arg)]) w).

(** [this._error (error)] of a view. *)
Definition call_error_handler (h : error_handler) (error : option string) : M unit :=
  match h with
  | bifocals_defaultError => throw No_error_handler
  | user_handler id => call_external id error
  end.

(** Calling a function that was handed to a renderer. *)
Definition call_callback (fn : callback) (arg : option string) : M unit :=
  match fn with
  | on_render_error _self =>
      modify_view _self (with_render_state RENDER_FAILED) >>
      let! this := get_view _self in
      call_error_handler (_error this) arg
  | on_render_end _self =>
      modify_view _self (with_render_state RENDER_COMPLETE)
  | external_fn id => call_external id arg
  end.

(** [renderer._error (err)]: the installed handler, or [renderer_defaultError]. *)
Definition Renderer__error (r : nat) (err : string) : M unit :=
  let! this := get_renderer r in
  match r__error this with
  | Some fn => call_callback fn (Some err)
  | None => modify_renderer r (with_r_error (pending_error err))
  end.

(** [renderer._end ()]: the installed handler, or [renderer_defaultEnd]. *)
Definition Renderer__end (r : nat) : M unit :=
  let! this := get_renderer r in
  match r__end this with
  | Some fn => call_callback fn None
  | None => modify_renderer r (with_r_end pending_end)
  end.

(** [renderer.error (fn)]. *)
Definition Renderer_error (r : nat) (fn : callback) : M unit :=
  let! this := get_renderer r in
  match r_error this with
  | renderer_error => modify_renderer r (with_r__error (Some fn))
  | pending_error err => nextTick (call_fn fn (Some err))
  end.

(** [renderer.end (fn)]. *)
Definition Renderer_end (r : nat) (fn : callback) : M unit :=
  let! this := get_renderer r in
  match r_end this with
  | renderer_end => modify_renderer r (with_r__end (Some fn))
  | pending_end => nextTick (call_fn fn None)
  end.

(** [renderer.render (path)] belongs to the template engine: the call is
    recorded, and what the engine does next (writes, [end], its signals)
    arrives as later calls of [response_write], [response_end],
    [Renderer__end] and [Renderer__error]. *)
Definition Renderer_render (r : nat) (path : option string) : M unit :=
  let! this := get_renderer r in
  λ w, Ret tt (with_invocations
                 (invocations w ++ [mkInvocation r (r_view this) path (views w)]) w).

(** ** View methods (revision [part_000]) *)

(** [new Bifocals ()]: a fresh view at the end of the arena. *)
Definition new_Bifocals : M addr :=
  λ w, let a := length (views w) in
       Ret a (with_views
                (views w ++ [mkBifocals ∅ ∅ RENDER_NOT_CALLED None a
                                        None None None NoResponse bifocals_defaultError]) w).

Definition isRendered (v : Bifocals) : bool :=
  bool_decide (render_state v = RENDER_COMPLETE).

Definition set (a : addr) (key : string) (val : value) : M unit :=
  modify_view a (λ v, with_data (<[key := val]> (_data v)) v).



(** The loop of [canRender]: [false] at the first child not rendered. *)
Fixpoint all_rendered (cs : list (string * addr)) : M bool :=
  match cs with
  | [] => ret true
  | (_, c) :: cs' =>
      let! child_view := get_view c in
      if isRendered child_view then all_rendered cs' else ret false
  end.

Definition canRender (a : addr) : M bool :=
  let! this := get_view a in
  if bool_decide (render_state this ≠ RENDER_REQUESTED) then ret false
  else all_rendered (map_to_list (_child_views this)).

(** [cancelRender], with the depth of its recursion bounded by [fuel].  The
    loop runs over the children the view has when it starts; the map is
    replaced by an empty one only after the loop. *)
Fixpoint cancelRender_fuel (fuel : nat) (a : addr) : M unit :=
  match fuel with
  | 0 => throw OutOfFuel
  | S fuel' =>
      let! this := get_view a in
      modify_view a (with_render_state RENDER_CANCELED) >>
      for_each (map_to_list (_child_views this))
               (λ kc, cancelRender_fuel fuel' kc.2) >>
      modify_view a (with_child_views ∅)
  end.

(** Children are allocated after their parent, so no chain of children is
    longer than the arena. *)
Definition cancelRender (a : addr) : M unit :=
  λ w, cancelRender_fuel (length (views w)) a w.

Definition buildRenderer (a : addr) : M nat :=
  let! this := get_view a in
  let! class := getRenderer (content_type this) in
  let! renderer := new_Renderer class (Some a) in
  Renderer_error renderer (on_render_error a) >>
  Renderer_end renderer (on_render_end a) >>
  ret renderer.

(** The [!force] branch of [render]. *)
Definition render_unforced (a : addr) (tmpl : option string) : M unit :=
  let! this := get_view a in
  if bool_decide (render_state this = RENDER_CANCELED) then ret tt
  else
    modify_view a (with_render_state RENDER_REQUESTED) >>
    let! ok := canRender a in
    if ok then
      modify_view a (with_render_state RENDER_STARTED) >>
      let! this := get_view a in
      let tmpl := if truthy (template this) then template this else tmpl in
      let! renderer := buildRenderer a in
      Renderer_render renderer (js_add (dir this) tmpl)
    else
      let! this := get_view a in
      if truthy (template this) then ret tt
      else modify_view a (with_template tmpl).

Definition render (a : addr) (tmpl : option string) (force : bool) : M unit :=
  if negb force then render_unforced a tmpl
  else
    cancelRender a >>
    modify_view a (with_render_state RENDER_REQUESTED) >>
    modify_view a (with_template tmpl) >>
    render_unforced a tmpl.

(** [error (fn)] of a view. *)
Definition error (a : addr) (fn : error_handler) : M unit :=
  modify_view a (with_error fn).

Definition child (a : addr) (key : string) (tmpl : option string) : M addr :=
  let! this := get_view a in
  let! new_view := new_Bifocals in
  modify_view new_view (with_content_type (content_type this)) >>
  modify_view new_view (with_parent (Some a)) >>
  modify_view new_view (with_root (root this)) >>
  modify_view new_view (with_dir (dir this)) >>
  error new_view (_error this) >>
  (if truthy tmpl then modify_view new_view (with_template tmpl) else ret tt) >>
  modify_view new_view (with_response (FakeResponse "" key None)) >>
  modify_view a (λ v, with_child_views (<[key := new_view]> (_child_views v)) v) >>
  ret new_view.

(** [write (chunk)] on the response object of view [a]. *)
Definition response_write (a : addr) (chunk : string) : M unit :=
  let! v := get_view a in
  match response v with
  | NoResponse => throw TypeError
  | FakeResponse buffer key sc =>
      modify_view a (with_response (FakeResponse (buffer +:+ chunk) key sc))
  | ServerResponse sc hs chunks ended =>
      modify_view a (with_response (ServerResponse sc hs (chunks ++ [chunk]) ended))
  end.

(** [end ()] on the response object of view [a].  For the object built by
    [child], [a] is the [new_view] its closure refers to. *)
Definition response_end (a : addr) : M unit :=
  let! v := get_view a in
  match response v with
  | NoResponse => throw TypeError
  | FakeResponse buffer key _ =>
      modify_view a (with_render_state RENDER_COMPLETE) >>
      let! new_view := get_view a in
      match parent new_view with
      | None => throw TypeError
      | Some p =>
          set p key (VString buffer) >>
          let! ok := canRender p in
          if ok then nextTick (render_parent_of a) else ret tt
      end
  | ServerResponse sc hs chunks ended =>
      modify_view a (with_response (ServerResponse sc hs chunks (S ended)))
  end.

(** ** The scheduler *)

Definition run_task (t : task) : M unit :=
  match t with
  | render_parent_of new_view =>
      let! v := get_view new_view in
      match parent v with
      | None => throw TypeError
      | Some p => render p None false
      end
  | call_fn fn arg => call_callback fn arg
  end.

(** One turn of the [nextTick] queue: its oldest task, if any. *)
Definition tick : M unit :=
  λ w, match ticks w with
       | [] => Ret tt w
       | t :: ts => run_task t (with_ticks ts w)
       end.

(** The world after a computation, whether it returned or threw. *)
Definition world_of {A} (r : res A) : world :=
  match r with
  | Ret _ w => w
  | Throw _ w => w
  end.

Definition exec {A} (m : M A) (w : world) : world := world_of (m w).

(** ** Status helpers (revision [part_000]) *)

(** [response.statusCode = code] on the response object of view [r]. *)
Definition assign_statusCode (r : addr) (code : nat) : M unit :=
  let! v := get_view r in
  match response v with
  | NoResponse => throw TypeError
  | FakeResponse buffer key _ =>
      modify_view r (with_response (FakeResponse buffer key (Some code)))
  | ServerResponse _ hs chunks ended =>
      modify_view r (with_response (ServerResponse (Some code) hs chunks ended))
  end.

(** [response.setHeader (name, val)] on the response object of view [r]; the
    object built by [child] has no such method. *)
Definition response_setHeader (r : addr) (name val : string) : M unit :=
  let! v := get_view r in
  match response v with
  | ServerResponse sc hs chunks ended =>
      modify_view r (with_response (ServerResponse sc (<[name := val]> hs) chunks ended))
  | _ => throw TypeError
  end.

Definition setStatusCode (a : addr) (code : nat) : M unit :=
  let! this := get_view a in
  assign_statusCode (root this) code.

Definition setHeaders (a : addr) (headers : list (string * string)) : M unit :=
  for_each headers
    (λ kv, let! this := get_view a in response_setHeader (root this) kv.1 kv.2).

(** The template argument of a helper is [Some] when it is a string. *)
Definition statusNotFound (a : addr) (tmpl : option string) : M unit :=
  setStatusCode a 404 >>
  let! this := get_view a in
  cancelRender (root this) >>
  match tmpl with
  | None => cancelRender (root this) >> response_end (root this)
  | Some t => render (root this) (Some t) true
  end.

Definition statusError (a : addr) (err : value) (tmpl : option string) : M unit :=
  setStatusCode a 500 >>
  let! this := get_view a in
  set (root this) "error" err >>
  match tmpl with
  | None => cancelRender (root this) >> response_end (root this)
  | Some t => render (root this) (Some t) true
  end.

Definition statusCreated (a : addr) (redirect_url : string) : M unit :=
  setStatusCode a 201 >>
  setHeaders a [("Location", redirect_url)] >>
  let! this := get_view a in
  cancelRender (root this) >>
  response_end (root this).

Definition statusRedirect (a : addr) (redirect_url : string) : M unit :=
  setStatusCode a 302 >>
  setHeaders a [("Location", redirect_url)] >>
  let! this := get_view a in
  cancelRender (root this) >>
  response_end (root this).

Definition statusNotModified (a : addr) : M unit :=
  setStatusCode a 304 >>
  let! this := get_view a in
  cancelRender (root this) >>
  response_end (root this).

Definition statusUnsupportedMethod (a : addr) (supported_methods : list string) : M unit :=
  setStatusCode a 405 >>
  setHeaders a [("Allow", String.concat "," supported_methods)] >>
  let! this := get_view a in
  cancelRender (root this) >>
  response_end (root this).

Definition statusUnauthorized (a : addr) (tmpl : option string) : M unit :=
  setStatusCode a 401 >>
  let! this := get_view a in
  cancelRender (root this) >>
  match tmpl with
  | None => cancelRender (root this) >> response_end (root this)
  | Some t => render (root this) (Some t) true
  end.

(** ** Revision [part_001]

    The older revision keeps the template, response and content type in
    [_template], [_response] and [_content_type] behind setters; the fields
    [template], [response] and [content_type] of [Bifocals] stand for them. *)
Module Rev1.

Definition setTemplate (a : addr) (tmpl : option string) : M unit :=
  modify_view a (with_template tmpl).

Definition setContentType (a : addr) (ct : option string) : M unit :=
  modify_view a (with_content_type ct).

(** A [ServerResponse] gets a default content type.  The [status_code] the
    source also assigns is a property of its own that nothing reads. *)
Definition setResponse (a : addr) (resp : response_obj) : M unit :=
  modify_view a
    (with_response
       match resp with
       | ServerResponse sc hs chunks ended =>
           ServerResponse sc (<["Content-Type" := "text/plain"]> hs) chunks ended
       | _ => resp
       end).

Definition Renderer__error (r : nat) (err : string) : M unit :=
  let! this := get_renderer r in
  match r__error this with
  | Some fn => call_callback fn (Some err)
  | None => modify_renderer r (with_r_error (pending_error err))
  end.

Definition Renderer__end (r : nat) : M unit :=
  let! this := get_renderer r in
  match r__end this with
  | Some fn => call_callback fn None
  | None => modify_renderer r (with_r_end pending_end)
  end.

(** The function [_error] installs calls [fn] at once. *)
Definition Renderer_error (r : nat) (fn : callback) : M unit :=
  let! this := get_renderer r in
  match r_error this with
  | renderer_error => modify_renderer r (with_r__error (Some fn))
  | pending_error err => call_callback fn (Some err)
  end.

Definition Renderer_end (r : nat) (fn : callback) : M unit :=
  let! this := get_renderer r in
  match r_end this with
  | renderer_end => modify_renderer r (with_r__end (Some fn))
  | pending_end => call_callback fn None
  end.


Definition canRender (a : addr) : M bool :=
  let! this := get_view a in
  if bool_decide (render_state this ≠ RENDER_REQUESTED) then ret false
  else all_rendered (map_to_list (_child_views this)).

Fixpoint cancelRender_fuel (fuel : nat) (a : addr) : M unit :=
  match fuel with
  | 0 => throw OutOfFuel
  | S fuel' =>
      let! this := get_view a in
      modify_view a (with_render_state RENDER_CANCELED) >>
      for_each (map_to_list (_child_views this))
               (λ kc, cancelRender_fuel fuel' kc.2) >>
      modify_view a (with_child_views ∅)
  end.

Definition cancelRender (a : addr) : M unit :=
  λ w, cancelRender_fuel (length (views w)) a w.

Definition buildRenderer (a : addr) : M nat :=
  let! this := get_view a in
  let! class := getRenderer (content_type this) in
  let! renderer := new_Renderer class (Some a) in
  Renderer_error renderer (on_render_error a) >>
  Renderer_end renderer (on_render_end a) >>
  ret renderer.

Definition render_unforced (a : addr) (tmpl : option string) : M unit :=
  let! this := get_view a in
  if bool_decide (render_state this = RENDER_CANCELED) then ret tt
  else
    modify_view a (with_render_state RENDER_REQUESTED) >>
    let! ok := canRender a in
    if ok then
      modify_view a (with_render_state RENDER_STARTED) >>
      let! this := get_view a in
      let tmpl := if truthy (template this) then template this else tmpl in
      let! renderer := buildRenderer a in
      Renderer_render renderer (js_add (dir this) tmpl)
    else
      let! this := get_view a in
      if truthy (template this) then ret tt
      else setTemplate a tmpl.

Definition render (a : addr) (tmpl : option string) (force : bool) : M unit :=
  if negb force then render_unforced a tmpl
  else
    cancelRender a >>
    modify_view a (with_render_state RENDER_REQUESTED) >>
    setTemplate a tmpl >>
    render_unforced a tmpl.

Definition child (a : addr) (key : string) (tmpl : option string) : M addr :=
  let! this := get_view a in
  let! new_view := new_Bifocals in
  setContentType new_view (content_type this) >>
  modify_view new_view (with_parent (Some a)) >>
  modify_view new_view (with_root (root this)) >>
  modify_view new_view (with_dir (dir this)) >>
  error new_view (_error this) >>
  (if truthy tmpl then setTemplate new_view tmpl else ret tt) >>
  setResponse new_view (FakeResponse "" key None) >>
  modify_view a (λ v, with_child_views (<[key := new_view]> (_child_views v)) v) >>
  ret new_view.

(** The template argument is never looked at. *)
Definition statusNotFound (a : addr) (tmpl : option string) : M unit :=
  let! this := get_view a in
  cancelRender (root this) >>
  assign_statusCode (root this) 404 >>
  response_end (root this).

Definition statusError (a : addr) (err : value) (tmpl : option string) : M unit :=
  let! this := get_view a in
  set (root this) "error" err >>
  assign_statusCode (root this) 500 >>
  match tmpl with
  | None => cancelRender (root this) >> response_end (root this)
  | Some t => render (root this) (Some t) true
  end.

Definition statusCreated (a : addr) (redirect_url : string) : M unit :=
  let! this := get_view a in
  cancelRender (root this) >>
  assign_statusCode (root this) 201 >>
  response_setHeader (root this) "Location" redirect_url >>
  response_end (root this).

Definition statusRedirect (a : addr) (redirect_url : string) : M unit :=
  let! this := get_view a in
  cancelRender (root this) >>
  assign_statusCode (root this) 302 >>
  response_setHeader (root this) "Location" redirect_url >>
  response_end (root this).

(** The last line reads [this.root.response], a property this revision
    never sets: calling [end] on it throws. *)
Definition statusNotModified (a : addr) : M unit :=
  let! this := get_view a in
  cancelRender (root this) >>
  assign_statusCode (root this) 304 >>
  throw TypeError.

Definition statusUnsupportedMethod (a : addr) (supported_methods : list string) : M unit :=
  let! this := get_view a in
  cancelRender (root this) >>
  assign_statusCode (root this) 405 >>
  response_setHeader (root this) "Allow" (String.concat "," supported_methods) >>
  response_end (root this).

End Rev1.

(** ** The gate and the worlds [render] leaves *)

(** A child that the arena holds in state [RENDER_COMPLETE]. *)
Definition complete_at (vs : list Bifocals) (c : addr) : Prop :=
  ∃ vc, vs !! c = Some vc ∧ render_state vc = RENDER_COMPLETE.

(** The gate, as a proposition on the arena. *)
Definition gate_open (vs : list Bifocals) (v : Bifocals) : Prop :=
  render_state v = RENDER_REQUESTED ∧
  ∀ k c, _child_views v !! k = Some c → complete_at vs c.

(** The renderer object [buildRenderer] leaves behind for view [a]. *)
Definition built_renderer (class : nat) (a : addr) : Renderer :=
  mkRenderer class (Some a) renderer_error (Some (on_render_error a))
             renderer_end (Some (on_render_end a)).

(** The template a gated render resolves to: a truthy [template] of the view
    wins over the argument. *)
Definition resolved_template (v : Bifocals) (tmpl : option string) : option string :=
  if truthy (template v) then template v else tmpl.

(** The world after view [a], whose record was [v], started to render. *)
Definition started_world (w : world) (a : addr) (v : Bifocals)
    (class : nat) (tmpl : option string) : world :=
  let vs := <[a := with_render_state RENDER_STARTED v]> (views w) in
  mkWorld vs
          (renderer_objs w ++ [built_renderer class a])
          (ticks w) (_renderers w) (calls w)
          (invocations w ++
             [mkInvocation (length (renderer_objs w)) (Some a)
                           (js_add (dir v) (resolved_template v tmpl)) vs]).

(** The world after a render that has to wait: the request is recorded, and
    the template argument too unless the view has a truthy one. *)
Definition waiting_view (v : Bifocals) (tmpl : option string) : Bifocals :=
  if truthy (template v) then with_render_state RENDER_REQUESTED v
  else with_template tmpl (with_render_state RENDER_REQUESTED v).

(** ** The tree of views *)

(** A child is allocated after the view that creates it: every entry of a
    children map points forward in the arena. *)
Definition wf_views (vs : list Bifocals) : Prop :=
  ∀ a v k c, vs !! a = Some v → _child_views v !! k = Some c → a < c < length vs.

(** [desc vs a d]: [d] is [a] or is reached from [a] through children maps. *)
Inductive desc (vs : list Bifocals) : addr → addr → Prop :=
  | desc_refl a : desc vs a a
  | desc_child a v k c d :
      vs !! a = Some v → _child_views v !! k = Some c →
      desc vs c d → desc vs a d.

Definition canceled (v : Bifocals) : Bifocals :=
  with_child_views ∅ (with_render_state RENDER_CANCELED v).

Definition is_canceled (v : Bifocals) : Prop :=
  render_state v = RENDER_CANCELED ∧ _child_views v = ∅.

Definition canceled_at (vs : list Bifocals) (d : addr) : Prop :=
  ∃ v, vs !! d = Some v ∧ is_canceled v.

(** What a call [cancelRender] on [a] turns the arena [vs] into: the views
    below [a] in the tree are canceled, the others are as they were. *)
Definition cancel_post (vs : list Bifocals) (a : addr) (vs' : list Bifocals) : Prop :=
  length vs' = length vs ∧
  (∀ d, vs' !! d = vs !! d ∨
        (desc vs a d ∧ ∃ v, vs !! d = Some v ∧ vs' !! d = Some (canceled v))) ∧
  (∀ d, desc vs a d → canceled_at vs' d).

(** The same for the loop over the children [l] of a view. *)
Definition loop_post (vs : list Bifocals) (l : list (string * addr))
    (vs' : list Bifocals) : Prop :=
  length vs' = length vs ∧
  (∀ d, vs' !! d = vs !! d ∨
        ((∃ kc, kc ∈ l ∧ desc vs kc.2 d) ∧
         ∃ v, vs !! d = Some v ∧ vs' !! d = Some (canceled v))) ∧
  (∀ kc d, kc ∈ l → desc vs kc.2 d → canceled_at vs' d).

(** [cancelRender] with [f] levels of recursion is enough for every view at
    most [f] places from the end of the arena. *)
Definition cancel_ok (f : nat) : Prop :=
  ∀ w c, wf_views (views w) → c < length (views w) →
         length (views w) - c ≤ f →
         ∃ vs', cancelRender_fuel f c w = Ret tt (with_views vs' w) ∧
                cancel_post (views w) c vs'.

(** A boolean check of [wf_views], for arenas given in full. *)
Fixpoint wf_from (n len : nat) (vs : list Bifocals) : bool :=
  match vs with
  | [] => true
  | v :: vs' =>
      forallb (λ kc : string * nat, (n <? kc.2) && (kc.2 <? len))
              (map_to_list (_child_views v))
      && wf_from (S n) len vs'
  end.

Definition wf_viewsb (vs : list Bifocals) : bool := wf_from 0 (length vs) vs.

(** ** Demonstration worlds *)

Definition html : option string := Some "text/html".

(** A root with a real response, content type and template directory. *)
Definition new_root : M addr :=
  let! r := new_Bifocals in
  modify_view r (with_content_type html) >>
  modify_view r (with_response (ServerResponse None ∅ [] 0)) >>
  modify_view r (with_dir (Some "tpl/")) >>
  error r (user_handler 0) >>
  ret r.

(** Root 0 with children "header" (1, template preset) and "body" (2);
    "header" has a child "nav" (3). *)
Definition page_world : world := Eval vm_compute in
  exec (addRenderer "text/html" 7 >>
        let! r := new_root in
        let! h := child r "header" (Some "head.html") in
        let! b := child r "body" None in
        let! n := child h "nav" None in
        ret tt) empty_world.

(** The same page after [cancelRender] on the root. *)
Definition canceled_page : world := Eval vm_compute in
  exec (cancelRender 0) page_world.

(** A root without children. *)
Definition leaf_world : world := Eval vm_compute in
  exec (addRenderer "text/html" 7 >> new_root) empty_world.


(** ** Which template is rendered *)

(** A view with a child that has not completed. *)
Definition pending (vs : list Bifocals) (v : Bifocals) : Prop :=
  ∃ k c, _child_views v !! k = Some c ∧ ¬ complete_at vs c.

(** The children of a view, in the arena and other than the view itself. *)
Definition children_in (vs : list Bifocals) (a : addr) (v : Bifocals) : Prop :=
  ∀ k c, _child_views v !! k = Some c → c ≠ a ∧ is_Some (vs !! c).

(** The reading of "the first template passed to [render] is remembered":
    after [render (ta)] and [render (tb)] on a view with a pending child, the
    view holds [ta]. *)
Definition first_render_template_wins (w : world) (a : addr) (ta tb : string) : Prop :=
  ∀ v w', views w !! a = Some v →
          pending (views w) v →
          (render a (Some ta) false >> render a (Some tb) false) w = Ret tt w' →
          template <$> views w' !! a = Some (Some ta).

(** The page after "body" (2) completed: rendering the root must wait for
    "header". *)
Definition body_done : world := Eval vm_compute in
  exec (response_write 2 "<p>hi</p>" >> response_end 2) page_world.

(** ** The renderer's pending signals *)

(** A renderer on which no handler is registered and no signal has fired. *)
Definition fresh_renderer (o : Renderer) : Prop :=
  r_error o = renderer_error ∧ r__error o = None ∧
  r_end o = renderer_end ∧ r__end o = None.

(** The reading of "the handler is invoked at the next scheduling
    opportunity", for the [_error] and [error] of one revision: after the
    signal and the registration, the function has not been called and its
    call is on the [nextTick] queue. *)
Definition signal_waits_for_tick
    (fire : nat → string → M unit) (register : nat → callback → M unit)
    (w : world) (r : nat) (err : string) (id : nat) : Prop :=
  ∀ w', (fire r err >> register r (external_fn id)) w = Ret tt w' →
        calls w' = calls w ∧ call_fn (external_fn id) (Some err) ∈ ticks w'.

(** A world holding one renderer, built on its own. *)
Definition lone_renderer : world := Eval vm_compute in
  exec (new_Renderer 7 None) empty_world.

(** ** Sequences of operations *)

Inductive op :=
  | op_render (a : addr) (tmpl : option string) (force : bool)
  | op_cancelRender (a : addr)
  | op_renderer_end (r : nat)
  | op_renderer_error (r : nat) (err : string)
  | op_response_end (a : addr)
  | op_tick.

Definition run_op (o : op) : M unit :=
  match o with
  | op_render a tmpl force => render a tmpl force
  | op_cancelRender a => cancelRender a
  | op_renderer_end r => Renderer__end r
  | op_renderer_error r err => Renderer__error r err
  | op_response_end a => response_end a
  | op_tick => tick
  end.

(** An operation that throws leaves the world as it was at the throw; the
    next operation goes on from there. *)
Definition run_ops (os : list op) (w : world) : world :=
  foldl (λ w o, exec (run_op o) w) w os.

Definition state_at (w : world) (a : addr) : option render_states :=
  render_state <$> views w !! a.

(** The lifecycle a state is said to follow. *)
Inductive lifecycle_step : render_states → render_states → Prop :=
  | step_request : lifecycle_step RENDER_NOT_CALLED RENDER_REQUESTED
  | step_start : lifecycle_step RENDER_REQUESTED RENDER_STARTED
  | step_complete : lifecycle_step RENDER_STARTED RENDER_COMPLETE
  | step_fail : lifecycle_step RENDER_STARTED RENDER_FAILED
  | step_cancel s :
      s ≠ RENDER_COMPLETE → s ≠ RENDER_CANCELED →
      lifecycle_step s RENDER_CANCELED.

Definition forward_only (w : world) (a : addr) (os : list op) : Prop :=
  ∀ s s', state_at w a = Some s →
          state_at (run_ops os w) a = Some s' →
          rtc lifecycle_step s s'.

(** What one operation may do to the state of a view. *)
Definition T_cancel (s s' : render_states) : Prop :=
  s' = s ∨ s' = RENDER_CANCELED.

Definition T_render (s s' : render_states) : Prop :=
  s' = s ∨ (s ≠ RENDER_CANCELED ∧ (s' = RENDER_REQUESTED ∨ s' = RENDER_STARTED)).

Definition T_force (s s' : render_states) : Prop :=
  s' = s ∨ s' = RENDER_CANCELED ∨ s' = RENDER_REQUESTED ∨ s' = RENDER_STARTED.

Definition T_signal (s s' : render_states) : Prop :=
  s' = s ∨ s' = RENDER_COMPLETE ∨ s' = RENDER_FAILED.

Definition op_effect (o : op) (s s' : render_states) : Prop :=
  match o with
  | op_render _ _ false => T_render s s'
  | op_render _ _ true => T_force s s'
  | op_cancelRender _ => T_cancel s s'
  | op_renderer_end _ | op_renderer_error _ _ | op_response_end _ => T_signal s s'
  | op_tick => T_render s s' ∨ T_signal s s'
  end.

(** Operations that are neither forced nor callbacks. *)
Definition unforced (o : op) : Prop :=
  match o with
  | op_render _ _ false | op_cancelRender _ => True
  | _ => False
  end.

Definition lifts (T : relation render_states) (w w' : world) : Prop :=
  ∀ d s, state_at w d = Some s → ∃ s', state_at w' d = Some s' ∧ T s s'.

Definition respects {A} (T : relation render_states) (m : M A) : Prop :=
  ∀ w, lifts T w (world_of (m w)).

(** ** The two revisions side by side *)


(** A change made to the record of view [r], whatever that record is. *)
Definition on_view (r : addr) (g : Bifocals → Bifocals) (w : world) : world :=
  with_views (alter g r (views w)) w.

Definition map_res {A} (F : world → world) (x : res A) : res A :=
  match x with
  | Ret a w => Ret a (F w)
  | Throw e w => Throw e (F w)
  end.

(** A change that touches neither the state nor the children of a view. *)
Definition inert (g : Bifocals → Bifocals) : Prop :=
  (∀ v, _child_views (g v) = _child_views v) ∧
  (∀ v, root (g v) = root v) ∧
  (∀ s v, g (with_render_state s v) = with_render_state s (g v)) ∧
  (∀ cv v, g (with_child_views cv v) = with_child_views cv (g v)).

(** ** A parent and the completions of its children *)

Inductive event :=
  | ev_render (tmpl : option string)     (* the parent's render (template) *)
  | ev_end (c : addr)                    (* end () of the adapter of child c *)
  | ev_tick.                             (* one turn of the nextTick queue *)

Definition run_event (p : addr) (e : event) : M unit :=
  match e with
  | ev_render tmpl => render p tmpl false
  | ev_end c => response_end c
  | ev_tick => tick
  end.

Definition run_schedule (p : addr) (sched : list event) : M unit :=
  for_each sched (run_event p).

Fixpoint ticks_n (n : nat) : M unit :=
  match n with
  | 0 => ret tt
  | S n' => tick >> ticks_n n'
  end.

(** Runs the queue until the tasks it held are done. *)
Definition drain : M unit := λ w, ticks_n (length (ticks w)) w.














(** ** Building a tree through the interface *)

(** Assignments to the public fields of a view. *)
Inductive assignment :=
  | assign_content_type (ct : option string)
  | assign_response (r : response_obj)
  | assign_dir (d : option string)
  | assign_template (t : option string).

Definition assign (a : addr) (x : assignment) : M unit :=
  match x with
  | assign_content_type ct => modify_view a (with_content_type ct)
  | assign_response r => modify_view a (with_response r)
  | assign_dir d => modify_view a (with_dir d)
  | assign_template t => modify_view a (with_template t)
  end.

Inductive status_call :=
  | st_NotFound (tmpl : option string)
  | st_Error (err : value) (tmpl : option string)
  | st_Created (redirect_url : string)
  | st_Redirect (redirect_url : string)
  | st_NotModified
  | st_UnsupportedMethod (supported_methods : list string)
  | st_Unauthorized (tmpl : option string).

Definition run_status (a : addr) (st : status_call) : M unit :=
  match st with
  | st_NotFound tmpl => statusNotFound a tmpl
  | st_Error err tmpl => statusError a err tmpl
  | st_Created url => statusCreated a url
  | st_Redirect url => statusRedirect a url
  | st_NotModified => statusNotModified a
  | st_UnsupportedMethod ms => statusUnsupportedMethod a ms
  | st_Unauthorized tmpl => statusUnauthorized a tmpl
  end.

(** What an application does with the module. *)
Inductive call :=
  | call_new
  | call_assign (a : addr) (x : assignment)
  | call_error (a : addr) (fn : error_handler)
  | call_child (a : addr) (key : string) (tmpl : option string)
  | call_set (a : addr) (key : string) (val : value)
  | call_write (a : addr) (chunk : string)
  | call_status (a : addr) (st : status_call)
  | call_op (o : op).

Definition run_call (c : call) : M unit :=
  match c with
  | call_new => new_Bifocals >> ret tt
  | call_assign a x => assign a x
  | call_error a fn => error a fn
  | call_child a key tmpl => child a key tmpl >> ret tt
  | call_set a key val => set a key val
  | call_write a chunk => response_write a chunk
  | call_status a st => run_status a st
  | call_op o => run_op o
  end.

Definition run_calls (cs : list call) (w : world) : world :=
  foldl (λ w c, exec (run_call c) w) w cs.


(** A root whose child under "k" was replaced by a second [child] with the
    same key.  The root renders and waits; the replacement completes, then the
    replaced view, still pointing at the root, completes too; the queue is
    drained. *)
Definition replaced_child_run : world := Eval vm_compute in
  exec (addRenderer "text/html" 7 >>
        let! r := new_root in
        let! old := child r "k" None in
        let! new := child r "k" None in
        response_write old "old" >>
        response_write new "new" >>
        run_schedule r [ev_render (Some "index.html"); ev_end new; ev_end old] >>
        drain) empty_world.

(** ** What [child] builds *)

(** The view [child (key, template)] creates on the view at [a], whose record
    is [va]: the template is kept only when it is truthy. *)
Definition child_view (a : addr) (va : Bifocals) (key : string)
    (tmpl : option string) : Bifocals :=
  mkBifocals ∅ ∅ RENDER_NOT_CALLED (Some a) (root va) (content_type va)
             (if truthy tmpl then tmpl else None) (dir va)
             (FakeResponse "" key None) (_error va).

(** The arena after that call: the new view at the end, and the entry for
    [key] in the children map of [a]. *)
Definition with_child (vs : list Bifocals) (a : addr) (va : Bifocals)
    (key : string) (tmpl : option string) : list Bifocals :=
  <[a := with_child_views (<[key := length vs]> (_child_views va)) va]>
    (vs ++ [child_view a va key tmpl]).


(** ** What the status helpers leave *)

(** The root after a helper that ends the response: canceled, holding
    [data], its response with the status code and headers of the helper and
    ended once more. *)
Definition ended_root (vr : Bifocals) (code : nat) (hs : gmap string string)
    (chunks : list string) (ended : nat) (data : gmap string value) : Bifocals :=
  with_response (ServerResponse (Some code) hs chunks (S ended))
                (with_data data (canceled vr)).

(** The outcome [x] of a helper that ends the response of the root [r]: it
    returned, the root is [root'], the tree below the root is canceled, and
    the views outside it and the rest of the world are as before. *)
Definition ends_response (w : world) (r : addr) (root' : Bifocals) (x : res unit) : Prop :=
  ∃ vs', x = Ret tt (with_views vs' w) ∧
         length vs' = length (views w) ∧
         vs' !! r = Some root' ∧
         (∀ d, desc (views w) r d → canceled_at vs' d) ∧
         (∀ d, ¬ desc (views w) r d → vs' !! d = views w !! d).

(** The root after a helper that renders a template on it: started, without
    children, holding [data] and the template, its response with the status
    code of the helper and not ended. *)
Definition rendering_root (vr : Bifocals) (code : nat) (hs : gmap string string)
    (chunks : list string) (ended : nat) (data : gmap string value)
    (t : string) : Bifocals :=
  with_render_state RENDER_STARTED
    (with_template (Some t)
       (with_response (ServerResponse (Some code) hs chunks ended)
                      (with_data data (canceled vr)))).

(** The outcome [x] of a helper that renders the template [t] on the root
    [r]: one renderer was built for the root and called with the template,
    the views below the root are canceled, and the views outside the tree,
    the queue and the calls to the application are as before. *)
Definition renders_root (w : world) (r : addr) (vr root' : Bifocals)
    (class : nat) (t : string) (x : res unit) : Prop :=
  ∃ w', x = Ret tt w' ∧
        length (views w') = length (views w) ∧
        views w' !! r = Some root' ∧
        (∀ d, desc (views w) r d → d ≠ r → canceled_at (views w') d) ∧
        (∀ d, ¬ desc (views w) r d → views w' !! d = views w !! d) ∧
        renderer_objs w' = renderer_objs w ++ [built_renderer class r] ∧
        invocations w' =
          invocations w ++
            [mkInvocation (length (renderer_objs w)) (Some r)
                          (js_add (dir vr) (Some t)) (views w')] ∧
        ticks w' = ticks w ∧ calls w' = calls w ∧ _renderers w' = _renderers w.

(** ** What the methods leave in place *)

(** [keeps R m]: the computation [m] creates no view and takes the record of
    every view to a record related to it by [R]. *)
Definition keeps {A} (R : relation Bifocals) (m : M A) : Prop :=
  ∀ w, length (views (world_of (m w))) = length (views w) ∧
       ∀ a v, views w !! a = Some v →
              ∃ v', views (world_of (m w)) !! a = Some v' ∧ R v v'.

(** The identity of a view: its parent, root, content type, template
    directory and error handler are the same, and its children map has lost
    entries at most. *)
Definition same_identity (v v' : Bifocals) : Prop :=
  parent v' = parent v ∧ root v' = root v ∧
  content_type v' = content_type v ∧ dir v' = dir v ∧ _error v' = _error v ∧
  ∀ k c, _child_views v' !! k = Some c → _child_views v !! k = Some c.

(** The links of a view: its parent and root are the same, and its children
    map has lost entries at most. *)
Definition same_links (v v' : Bifocals) : Prop :=
  parent v' = parent v ∧ root v' = root v ∧
  ∀ k c, _child_views v' !! k = Some c → _child_views v !! k = Some c.

(** The links of an arena: a view without parent is its own root, a view
    with a parent comes after it and has its root, and every entry of a
    children map is a view whose parent is the holder of the map. *)
Definition linked (vs : list Bifocals) : Prop :=
  ∀ c vc, vs !! c = Some vc →
    match parent vc with
    | None => root vc = c
    | Some p => p < c ∧ ∃ vp, vs !! p = Some vp ∧ root vp = root vc
    end ∧
    ∀ k c', _child_views vc !! k = Some c' →
            ∃ vc', vs !! c' = Some vc' ∧ parent vc' = Some c.


(** * Properties *)

(** ** Stepping through a method *)

Lemma bind_Ret {A B} (m : M A) (k : A → M B) w a w' :
  m w = Ret a w' → bind m k w = k a w'.
Proof. unfold bind. by intros ->. Qed.

Lemma bind_Throw {A B} (m : M A) (k : A → M B) w e w' :
  m w = Throw e w' → bind m k w = Throw e w'.
Proof. unfold bind. by intros ->. Qed.

Lemma get_view_Ret w a v : views w !! a = Some v → get_view a w = Ret v w.
Proof. unfold get_view. by intros ->. Qed.

Lemma modify_view_Ret w a v f :
  views w !! a = Some v →
  modify_view a f w = Ret tt (with_views (<[a := f v]> (views w)) w).
Proof. unfold modify_view. by intros ->. Qed.

Lemma lookup_modified (vs : list Bifocals) a v v' :
  vs !! a = Some v → <[a := v']> vs !! a = Some v'.
Proof. intros H. apply list_lookup_insert_eq. by eapply lookup_lt_Some. Qed.

(** Runs the first call of a sequence whose result a hypothesis or one of the
    lemmas above gives. *)
Ltac mstep H := erewrite bind_Ret by (exact H); cbv beta iota.
Ltac mget H := erewrite bind_Ret by (apply get_view_Ret; exact H); cbv beta iota.
Ltac mmod H := erewrite bind_Ret by (apply modify_view_Ret; exact H); cbv beta iota.

(** ** The gate *)

Lemma all_rendered_true cs w :
  all_rendered cs w = Ret true w ↔ ∀ kc, kc ∈ cs → complete_at (views w) kc.2.
Proof.
  induction cs as [|[k c] cs IH]; simpl.
  - split; [intros _ kc Hin; by apply elem_of_nil in Hin | done].
  - unfold bind, get_view. destruct (views w !! c) as [vc|] eqn:Hc.
    + unfold isRendered. case_bool_decide as Hst.
      * rewrite IH. split.
        -- intros Hall kc [->|Hin]%elem_of_cons; [by exists vc | by apply Hall].
        -- intros Hall kc Hin. apply Hall. by right.
      * split; [done|]. intros Hall.
        destruct (Hall (k, c)) as (vc' & Hc' & Hst'); [by left|].
        simpl in Hc'. congruence.
    + split; [done|]. intros Hall.
      destruct (Hall (k, c)) as (vc' & Hc' & _); [by left|].
      simpl in Hc'. congruence.
Qed.

Lemma all_rendered_world cs w b w' : all_rendered cs w = Ret b w' → w' = w.
Proof.
  induction cs as [|[k c] cs IH]; simpl.
  - unfold ret. by intros [= _ <-].
  - unfold bind, get_view. destruct (views w !! c) as [vc|]; [|done].
    destruct (isRendered vc); [done|]. unfold ret. by intros [= _ <-].
Qed.

Lemma all_rendered_total cs w :
  (∀ kc, kc ∈ cs → is_Some (views w !! kc.2)) →
  ∃ b, all_rendered cs w = Ret b w.
Proof.
  induction cs as [|[k c] cs IH]; simpl; intros Hv.
  - by exists true.
  - destruct (Hv (k, c)) as [vc Hc]; [by left|]. simpl in Hc.
    unfold bind, get_view. rewrite Hc.
    destruct (isRendered vc); [|by exists false].
    apply IH. intros kc Hin. apply Hv. by right.
Qed.

Lemma canRender_true w a :
  canRender a w = Ret true w ↔ ∃ v, views w !! a = Some v ∧ gate_open (views w) v.
Proof.
  unfold canRender, bind, get_view, gate_open.
  destruct (views w !! a) as [v|] eqn:Ha.
  - case_bool_decide as Hst.
    + split; [done|]. intros (v' & [= <-] & Hreq & _). done.
    + rewrite all_rendered_true. split.
      * intros Hall. exists v. split; [done|]. split; [by destruct (render_state v)|].
        intros k c Hkc. apply (Hall (k, c)). by apply elem_of_map_to_list.
      * intros (v' & [= <-] & _ & Hall) [k c] Hin.
        apply (Hall k c). by apply elem_of_map_to_list.
  - split; [done|]. by intros (v' & [=] & _).
Qed.

Lemma canRender_world w a b w' : canRender a w = Ret b w' → w' = w.
Proof.
  unfold canRender, bind, get_view.
  destruct (views w !! a) as [v|]; [|done].
  case_bool_decide; [unfold ret; by intros [= _ <-]|].
  apply all_rendered_world.
Qed.

Lemma canRender_total w a v :
  views w !! a = Some v →
  (∀ k c, _child_views v !! k = Some c → is_Some (views w !! c)) →
  ∃ b, canRender a w = Ret b w.
Proof.
  intros Ha Hv. unfold canRender. mget Ha.
  case_bool_decide; [by exists false|].
  apply all_rendered_total. intros [k c] Hin. simpl.
  apply (Hv k c). by apply elem_of_map_to_list.
Qed.

Lemma canRender_false w a v :
  views w !! a = Some v →
  (∀ k c, _child_views v !! k = Some c → is_Some (views w !! c)) →
  ¬ gate_open (views w) v →
  canRender a w = Ret false w.
Proof.
  intros Ha Hv Hng. destruct (canRender_total w a v Ha Hv) as [[] Hb]; [|done].
  exfalso. apply Hng. apply canRender_true in Hb as (v' & Ha' & Hg).
  by replace v with v' by congruence.
Qed.

(** ** What [render] does *)

Lemma buildRenderer_Ret w a v class :
  views w !! a = Some v →
  _renderers w !! registry_key (content_type v) = Some class →
  buildRenderer a w =
    Ret (length (renderer_objs w))
        (with_renderer_objs (renderer_objs w ++ [built_renderer class a]) w).
Proof.
  intros Ha Hreg. unfold buildRenderer. mget Ha.
  unfold bind at 1. unfold getRenderer. rewrite Hreg.
  unfold bind at 1. unfold new_Renderer.
  unfold bind at 1. unfold Renderer_error, bind at 1, get_renderer. simpl.
  rewrite list_lookup_middle by done. simpl.
  unfold modify_renderer at 1. simpl. rewrite list_lookup_middle by done.
  unfold bind at 1. unfold Renderer_end, bind at 1, get_renderer. simpl.
  rewrite (insert_app_r_alt _ _ (length (renderer_objs w))) by done.
  rewrite Nat.sub_diag. simpl.
  rewrite list_lookup_middle by done. simpl.
  unfold modify_renderer. simpl. rewrite list_lookup_middle by done.
  rewrite (insert_app_r_alt _ _ (length (renderer_objs w))) by done.
  rewrite Nat.sub_diag. reflexivity.
Qed.


Lemma complete_at_insert_ne vs a (v' : Bifocals) c :
  c ≠ a → complete_at vs c → complete_at (<[a := v']> vs) c.
Proof.
  intros Hne (vc & Hc & Hst). exists vc. split; [|done].
  by rewrite list_lookup_insert_ne.
Qed.

Lemma render_unforced_open w a v tmpl class :
  views w !! a = Some v →
  render_state v ≠ RENDER_CANCELED →
  (∀ k c, _child_views v !! k = Some c → c ≠ a ∧ complete_at (views w) c) →
  _renderers w !! registry_key (content_type v) = Some class →
  render_unforced a tmpl w = Ret tt (started_world w a v class tmpl).
Proof.
  intros Ha Hst Hch Hreg. unfold render_unforced. mget Ha.
  rewrite bool_decide_false by done. mmod Ha.
  set (w1 := with_views _ w).
  assert (Ha1 : views w1 !! a = Some (with_render_state RENDER_REQUESTED v))
    by (by eapply lookup_modified).
  assert (Hcan : canRender a w1 = Ret true w1).
  { apply canRender_true. eexists. split; [exact Ha1|]. split; [done|].
    intros k c Hkc. simpl in Hkc. destruct (Hch k c Hkc) as [Hne Hc].
    by apply complete_at_insert_ne. }
  mstep Hcan. mmod Ha1.
  set (w2 := with_views _ w1).
  assert (Ha2 : views w2 !! a = Some (with_render_state RENDER_STARTED v)).
  { subst w2. simpl. eapply (lookup_modified _ _ _ _ Ha1). }
  mget Ha2.
  erewrite bind_Ret by (eapply buildRenderer_Ret; [exact Ha2 | exact Hreg]).
  unfold Renderer_render, bind, get_renderer. simpl.
  rewrite list_lookup_middle by done. simpl.
  unfold started_world. subst w2 w1. simpl.
  rewrite !list_insert_insert_eq. reflexivity.
Qed.

Lemma render_unforced_wait w a v tmpl :
  views w !! a = Some v →
  render_state v ≠ RENDER_CANCELED →
  (∀ k c, _child_views v !! k = Some c → c ≠ a ∧ is_Some (views w !! c)) →
  (∃ k c, _child_views v !! k = Some c ∧ ¬ complete_at (views w) c) →
  render_unforced a tmpl w =
    Ret tt (with_views (<[a := waiting_view v tmpl]> (views w)) w).
Proof.
  intros Ha Hst Hch (k0 & c0 & Hkc0 & Hnc). unfold render_unforced. mget Ha.
  rewrite bool_decide_false by done. mmod Ha.
  set (w1 := with_views _ w).
  assert (Ha1 : views w1 !! a = Some (with_render_state RENDER_REQUESTED v))
    by (by eapply lookup_modified).
  assert (Hcan : canRender a w1 = Ret false w1).
  { eapply canRender_false; [exact Ha1| |].
    - intros k c Hkc. simpl in Hkc. destruct (Hch k c Hkc) as [Hne Hc].
      simpl. by rewrite list_lookup_insert_ne.
    - intros [_ Hall]. apply Hnc. destruct (Hch k0 c0 Hkc0) as [Hne _].
      destruct (Hall k0 c0 Hkc0) as (vc & Hc & Hcst). exists vc. split; [|done].
      simpl in Hc. by rewrite list_lookup_insert_ne in Hc. }
  mstep Hcan. mget Ha1. unfold waiting_view. simpl.
  destruct (truthy (template v)); [done|].
  erewrite modify_view_Ret by exact Ha1. simpl.
  by rewrite list_insert_insert_eq.
Qed.

Lemma render_unforced_canceled w a v tmpl :
  views w !! a = Some v →
  render_state v = RENDER_CANCELED →
  render_unforced a tmpl w = Ret tt w.
Proof.
  intros Ha Hst. unfold render_unforced. mget Ha.
  by rewrite bool_decide_true.
Qed.

(** ** Cancellation *)

Lemma desc_trans vs a b c : desc vs a b → desc vs b c → desc vs a c.
Proof.
  induction 1 as [|a v k c' b Ha Hk _ IH]; [done|].
  intros Hbc. eapply desc_child; eauto.
Qed.

Lemma desc_ge vs a d : wf_views vs → desc vs a d → a ≤ d.
Proof.
  intros Hwf. induction 1 as [|a v k c d Ha Hk _ IH]; [done|].
  destruct (Hwf a v k c Ha Hk). lia.
Qed.

Lemma desc_lt_length vs a d :
  wf_views vs → a < length vs → desc vs a d → d < length vs.
Proof.
  intros Hwf Hlt. induction 1 as [|a v k c d Ha Hk _ IH]; [done|].
  apply IH. by destruct (Hwf a v k c Ha Hk).
Qed.

(** Reachability only grows with the edges. *)
Lemma desc_mono (u vs : list Bifocals) x y :
  (∀ a v k c, u !! a = Some v → _child_views v !! k = Some c →
              ∃ v', vs !! a = Some v' ∧ _child_views v' !! k = Some c) →
  desc u x y → desc vs x y.
Proof.
  intros Hsub. induction 1 as [|a v k c d Ha Hk _ IH]; [constructor|].
  destruct (Hsub a v k c Ha Hk) as (v' & Ha' & Hk').
  eapply desc_child; eauto.
Qed.

Lemma is_canceled_canceled v : is_canceled (canceled v).
Proof. done. Qed.

Lemma canceled_idemp v : is_canceled v → canceled v = v.
Proof. destruct v. unfold is_canceled, canceled. simpl. by intros [-> ->]. Qed.

Section cancel_steps.
Context (vs vs' : list Bifocals).
Context (Hstep : ∀ d, vs' !! d = vs !! d ∨
                      ∃ v, vs !! d = Some v ∧ vs' !! d = Some (canceled v)).

Lemma step_edges a v k c :
  vs' !! a = Some v → _child_views v !! k = Some c →
  ∃ v', vs !! a = Some v' ∧ _child_views v' !! k = Some c.
Proof using Hstep.
  intros Ha Hk. destruct (Hstep a) as [Heq|(v0 & Hv0 & Hv')].
  - exists v. by rewrite <-Heq.
  - rewrite Hv' in Ha. injection Ha as <-. simpl in Hk.
    by rewrite lookup_empty in Hk.
Qed.

Lemma step_desc x y : desc vs' x y → desc vs x y.
Proof using Hstep. apply desc_mono, step_edges. Qed.

Lemma step_wf : length vs' = length vs → wf_views vs → wf_views vs'.
Proof using Hstep.
  intros Hlen Hwf a v k c Ha Hk.
  destruct (step_edges a v k c Ha Hk) as (v' & Ha' & Hk').
  rewrite Hlen. eauto.
Qed.

Lemma step_canceled_at d : canceled_at vs d → canceled_at vs' d.
Proof using Hstep.
  intros (v & Hd & Hc). destruct (Hstep d) as [Heq|(v0 & Hv0 & Hv')].
  - exists v. by rewrite Heq.
  - exists (canceled v0). split; [done|]. apply is_canceled_canceled.
Qed.
End cancel_steps.

Lemma cancel_post_step vs a vs' :
  cancel_post vs a vs' →
  ∀ d, vs' !! d = vs !! d ∨ ∃ v, vs !! d = Some v ∧ vs' !! d = Some (canceled v).
Proof. intros (_ & Hm & _) d. destruct (Hm d) as [?|[_ ?]]; eauto. Qed.

Lemma loop_post_step vs l vs' :
  loop_post vs l vs' →
  ∀ d, vs' !! d = vs !! d ∨ ∃ v, vs !! d = Some v ∧ vs' !! d = Some (canceled v).
Proof. intros (_ & Hm & _) d. destruct (Hm d) as [?|[_ ?]]; eauto. Qed.

(** A path of the old arena survives a cancellation, or its end is canceled. *)
Lemma cancel_post_path vs c vs' x d :
  cancel_post vs c vs' → desc vs x d → desc vs' x d ∨ canceled_at vs' d.
Proof.
  intros (Hlen & Hm & Hc). induction 1 as [|x v k c' d Hx Hk Hd IH]; [left; constructor|].
  destruct (Hm x) as [Heq|[Hcx _]].
  - destruct IH as [IH|IH]; [left|by right].
    eapply desc_child; [by rewrite Heq|done..].
  - right. apply Hc. eapply desc_trans; [exact Hcx|].
    eapply desc_child; eauto.
Qed.

(** Setting the state of a view leaves the edges of the tree as they are. *)
Section state_change.
Context (vs : list Bifocals) (a : addr) (va : Bifocals) (s : render_states).
Context (Ha : vs !! a = Some va).
Let u := <[a := with_render_state s va]> vs.

Lemma state_edges_old x v k c :
  u !! x = Some v → _child_views v !! k = Some c →
  ∃ v', vs !! x = Some v' ∧ _child_views v' !! k = Some c.
Proof using Ha.
  subst u. intros Hx Hk. destruct (decide (x = a)) as [->|Hne].
  - rewrite (lookup_modified _ _ _ _ Ha) in Hx. injection Hx as <-. eauto.
  - rewrite list_lookup_insert_ne in Hx by done. eauto.
Qed.

Lemma state_edges_new x v k c :
  vs !! x = Some v → _child_views v !! k = Some c →
  ∃ v', u !! x = Some v' ∧ _child_views v' !! k = Some c.
Proof using Ha.
  subst u. intros Hx Hk. destruct (decide (x = a)) as [->|Hne].
  - rewrite (lookup_modified _ _ _ _ Ha). eexists. split; [done|].
    simpl. congruence.
  - rewrite list_lookup_insert_ne by done. eauto.
Qed.

Lemma state_wf : wf_views vs → wf_views u.
Proof using Ha.
  intros Hwf x v k c Hx Hk.
  destruct (state_edges_old x v k c Hx Hk) as (v' & Hx' & Hk').
  subst u. rewrite length_insert. eauto.
Qed.
End state_change.

Lemma desc_inv vs a d :
  desc vs a d →
  a = d ∨ ∃ v k c, vs !! a = Some v ∧ _child_views v !! k = Some c ∧ desc vs c d.
Proof. destruct 1; [by left|right; eauto 10]. Qed.

Lemma with_views_id w : with_views (views w) w = w.
Proof. by destruct w. Qed.

Lemma cancel_loop f l :
  cancel_ok f →
  ∀ w, wf_views (views w) →
       (∀ kc, kc ∈ l → kc.2 < length (views w) ∧ length (views w) - kc.2 ≤ f) →
       ∃ vs', for_each l (λ kc, cancelRender_fuel f kc.2) w = Ret tt (with_views vs' w) ∧
              loop_post (views w) l vs'.
Proof.
  intros Hf. induction l as [|kc l IH]; intros w Hwf Hl.
  - exists (views w). split; [by rewrite with_views_id|].
    split; [done|]. split; [by left|].
    intros kc d Hin. by apply elem_of_nil in Hin.
  - destruct (Hl kc) as [Hlt Hfuel]; [by left|].
    destruct (Hf w kc.2 Hwf Hlt Hfuel) as (vs1 & Hrun1 & Hpost1).
    pose proof (cancel_post_step _ _ _ Hpost1) as Hstep1.
    destruct Hpost1 as (Hlen1 & Hm1 & Hc1).
    destruct (IH (with_views vs1 w)) as (vs2 & Hrun2 & Hpost2).
    { simpl. by apply (step_wf (views w)). }
    { simpl. rewrite Hlen1. intros kc' Hin. apply Hl. by right. }
    pose proof (loop_post_step _ _ _ Hpost2) as Hstep2.
    destruct Hpost2 as (Hlen2 & Hm2 & Hc2). simpl in *.
    exists vs2. split.
    { simpl. mstep Hrun1. exact Hrun2. }
    split; [congruence|]. split.
    + intros d. destruct (Hm2 d) as [Heq2|[(kc' & Hin & Hd) (v1 & Hv1 & Hv2)]].
      * destruct (Hm1 d) as [Heq1|[Hd (v & Hv & Hv1)]]; [left; congruence|].
        right. split; [exists kc; split; [by left|done]|].
        exists v. split; [done|congruence].
      * right. split.
        { exists kc'. split; [by right|]. by eapply step_desc. }
        destruct (Hm1 d) as [Heq1|[_ (v & Hv & Hv1')]].
        -- exists v1. split; congruence.
        -- exists v. split; [done|]. rewrite Hv2. f_equal.
           replace v1 with (canceled v) by congruence.
           apply canceled_idemp, is_canceled_canceled.
    + intros kc' d [->|Hin]%elem_of_cons Hd.
      * eapply step_canceled_at; [exact Hstep2|]. by apply Hc1.
      * destruct (cancel_post_path (views w) kc.2 vs1 kc'.2 d) as [Hd1|Hcd]; [done..| |].
        -- by eapply Hc2.
        -- by eapply step_canceled_at.
Qed.

Lemma cancelRender_fuel_ok f : cancel_ok f.
Proof.
  induction f as [|f IH]; intros w c Hwf Hlt Hfuel; [lia|].
  destruct (lookup_lt_is_Some_2 _ _ Hlt) as [v Hc].
  set (u := <[c := with_render_state RENDER_CANCELED v]> (views w)).
  assert (Hwfu : wf_views u) by (by apply state_wf).
  assert (Hu : u !! c = Some (with_render_state RENDER_CANCELED v))
    by (by eapply lookup_modified).
  destruct (cancel_loop f (map_to_list (_child_views v)) IH (with_views u w))
    as (vs1 & Hloop & Hlen1 & Hm1 & Hc1); [done| |].
  { simpl. subst u. rewrite length_insert. intros [k c'] Hin%elem_of_map_to_list.
    simpl. destruct (Hwf c v k c' Hc Hin). lia. }
  simpl in *.
  assert (Hc' : vs1 !! c = Some (with_render_state RENDER_CANCELED v)).
  { destruct (Hm1 c) as [Heq|[([k c'] & Hin%elem_of_map_to_list & Hd) _]]; [congruence|].
    simpl in Hd. apply desc_ge in Hd; [|done].
    destruct (Hwf c v k c' Hc Hin). lia. }
  exists (<[c := canceled v]> vs1). split.
  { simpl. mget Hc. mmod Hc. fold u. mstep Hloop.
    by erewrite modify_view_Ret by exact Hc'. }
  split; [subst u; rewrite length_insert, Hlen1; apply length_insert|].
  split.
  - intros d. destruct (decide (d = c)) as [->|Hne].
    { right. split; [constructor|]. exists v. split; [done|].
      by eapply lookup_modified. }
    rewrite list_lookup_insert_ne by done.
    destruct (Hm1 d) as [Heq|[([k c'] & Hin%elem_of_map_to_list & Hd) (v0 & Hv0 & Hv1)]].
    + left. rewrite Heq. subst u. by rewrite list_lookup_insert_ne.
    + right. simpl in Hd. subst u. rewrite list_lookup_insert_ne in Hv0 by done.
      split; [|by exists v0].
      eapply desc_child; [exact Hc|exact Hin|].
      eapply desc_mono; [|exact Hd]. by apply state_edges_old.
  - intros d [<-|(v' & k & c' & Hv' & Hk & Hd)]%desc_inv.
    + exists (canceled v). split; [by eapply lookup_modified|done].
    + replace v' with v in * by congruence.
      assert (c < c') by (by destruct (Hwf c v k c' Hc Hk)).
      assert (c' ≤ d) by (by apply (desc_ge (views w))).
      unfold canceled_at. rewrite list_lookup_insert_ne by lia.
      apply (Hc1 (k, c') d); [by apply elem_of_map_to_list|].
      simpl. eapply desc_mono; [|exact Hd]. by apply state_edges_new.
Qed.

(** [cancelRender] returns on every well-formed arena. *)
Lemma cancelRender_Ret w a :
  wf_views (views w) → a < length (views w) →
  ∃ vs', cancelRender a w = Ret tt (with_views vs' w) ∧ cancel_post (views w) a vs'.
Proof.
  intros Hwf Hlt. unfold cancelRender. apply cancelRender_fuel_ok; [done..|lia].
Qed.

(** A view that is already canceled is left as it is. *)
Lemma cancelRender_canceled w a :
  canceled_at (views w) a → cancelRender a w = Ret tt w.
Proof.
  intros (v & Ha & Hc). unfold cancelRender.
  pose proof (lookup_lt_Some _ _ _ Ha) as Hlt.
  destruct (length (views w)) as [|n] eqn:Hlen; [lia|].
  simpl. mget Ha. mmod Ha.
  destruct Hc as [Hst Hch]. rewrite Hch, map_to_list_empty. simpl.
  unfold bind at 1. unfold ret.
  erewrite modify_view_Ret by (by eapply lookup_modified).
  simpl. rewrite list_insert_insert_eq.
  replace (with_child_views ∅ (with_render_state RENDER_CANCELED v)) with v.
  - rewrite list_insert_id by done. by destruct w.
  - symmetry. by apply canceled_idemp.
Qed.

Lemma wf_from_spec n len vs :
  wf_from n len vs = true →
  ∀ a v k c, vs !! a = Some v → _child_views v !! k = Some c → n + a < c < len.
Proof.
  revert n. induction vs as [|v0 vs IH]; intros n Hwf a v k c Ha Hk; [done|].
  simpl in Hwf. apply andb_true_iff in Hwf as [Hv0 Hrest].
  destruct a as [|a]; simpl in Ha.
  - injection Ha as ->. rewrite forallb_forall in Hv0.
    specialize (Hv0 (k, c)). simpl in Hv0.
    rewrite andb_true_iff, Nat.ltb_lt, Nat.ltb_lt in Hv0.
    rewrite Nat.add_0_r. apply Hv0.
    apply list_elem_of_In. by apply elem_of_map_to_list.
  - specialize (IH (S n) Hrest a v k c Ha Hk). lia.
Qed.

Lemma wf_viewsb_spec vs : wf_viewsb vs = true → wf_views vs.
Proof. intros Hwf a v k c Ha Hk. by apply (wf_from_spec 0 _ vs Hwf a v k c). Qed.

(** ** Single calls *)

(** C7. On a view whose state is [RENDER_CANCELED], [render (template)]
    without force does nothing: the world it returns is the world it was
    given, so the state, template, data and children of the view are as
    before and no renderer was built or called. *)
Theorem render_canceled_is_noop w a v tmpl :
  views w !! a = Some v →
  render_state v = RENDER_CANCELED →
  render a tmpl false w = Ret tt w.
Proof. intros Ha Hst. simpl. by eapply render_unforced_canceled. Qed.

Lemma render_canceled_is_noop_witness :
  render 1 (Some "late.html") false canceled_page = Ret tt canceled_page.
Proof.
  eapply (render_canceled_is_noop canceled_page 1); [vm_compute; reflexivity|].
  vm_compute. reflexivity.
Defined.









(** ** Which template is rendered *)

(** The child "header" of the page was created with the template
    "head.html"; it keeps it through both calls. *)
Lemma first_render_template_wins_fails :
  ¬ first_render_template_wins page_world 1 "a.html" "b.html".
Proof.
  intros Hclaim.
  specialize (Hclaim
    (mkBifocals {["nav" := 3]} ∅ RENDER_NOT_CALLED (Some 0) 0 html
                (Some "head.html") (Some "tpl/")
                (FakeResponse "" "header" None) (user_handler 0))
    (exec (render 1 (Some "a.html") false >> render 1 (Some "b.html") false) page_world)).
  assert (Hno : template <$> views (exec (render 1 (Some "a.html") false >>
                  render 1 (Some "b.html") false) page_world) !! 1
                = Some (Some "head.html")) by (vm_compute; reflexivity).
  rewrite Hclaim in Hno; [discriminate|vm_compute; reflexivity| |vm_compute; reflexivity].
  exists "nav", 3. split; [vm_compute; reflexivity|].
  intros (vc & Hvc & Hst). vm_compute in Hvc. injection Hvc as <-. discriminate.
Qed.

(** C5, amended. On a view that is not canceled, holds no template and has a
    pending child, a non-empty template passed to [render] without force is
    stored.  From then on, as for any view holding a non-empty template
    (one given to [child] included): a later [render] without force while a
    child is pending leaves the template in place and calls no renderer, and
    a [render] without force that passes the gate renders the stored
    template, whatever its argument. *)
Theorem stored_template_wins w a v ta :
  views w !! a = Some v →
  render_state v ≠ RENDER_CANCELED →
  truthy (template v) = false →
  ta ≠ "" →
  children_in (views w) a v →
  pending (views w) v →
  (∃ w1, render a (Some ta) false w = Ret tt w1 ∧
         template <$> views w1 !! a = Some (Some ta) ∧
         invocations w1 = invocations w) ∧
  (∀ w2 v2 tb,
     views w2 !! a = Some v2 → template v2 = Some ta →
     render_state v2 ≠ RENDER_CANCELED →
     children_in (views w2) a v2 →
     (pending (views w2) v2 →
        ∃ w3, render a tb false w2 = Ret tt w3 ∧
              template <$> views w3 !! a = Some (Some ta) ∧
              invocations w3 = invocations w2) ∧
     (∀ class,
        (∀ k c, _child_views v2 !! k = Some c → complete_at (views w2) c) →
        _renderers w2 !! registry_key (content_type v2) = Some class →
        ∃ w3, render a tb false w2 = Ret tt w3 ∧
              invocations w3 =
                invocations w2 ++
                  [mkInvocation (length (renderer_objs w2)) (Some a)
                                (js_add (dir v2) (Some ta)) (views w3)])).
Proof.
  intros Ha Hst Hfalsy Hta Hin Hpend.
  assert (Htruthy : truthy (Some ta) = true) by (by apply bool_decide_true).
  split.
  - eexists. split; [by apply render_unforced_wait|]. split; [|done].
    simpl. rewrite (lookup_modified _ _ _ _ Ha). unfold waiting_view.
    by rewrite Hfalsy.
  - intros w2 v2 tb Ha2 Htpl Hst2 Hin2. split.
    + intros Hpend2. eexists. split; [by apply render_unforced_wait|].
      split; [|done]. simpl. rewrite (lookup_modified _ _ _ _ Ha2).
      unfold waiting_view. rewrite Htpl, Htruthy. simpl. by rewrite Htpl.
    + intros class Hall Hreg. exists (started_world w2 a v2 class tb). split.
      * apply render_unforced_open; [done..| |done].
        intros k c Hkc. split; [by apply (Hin2 k c)|by apply (Hall k c)].
      * simpl. unfold resolved_template. by rewrite Htpl, Htruthy.
Qed.

Lemma stored_template_wins_witness :
  ∃ w1, render 0 (Some "a.html") false body_done = Ret tt w1 ∧
        template <$> views w1 !! 0 = Some (Some "a.html").
Proof.
  destruct (stored_template_wins body_done 0
              (mkBifocals {["header" := 1; "body" := 2]}
                          {["body" := VString "<p>hi</p>"]}
                          RENDER_NOT_CALLED None 0 html
                          None (Some "tpl/") (ServerResponse None ∅ [] 0) (user_handler 0))
              "a.html")
    as [(w1 & Hrun & Htpl & _) _].
  - vm_compute; reflexivity.
  - done.
  - reflexivity.
  - done.
  - intros k c Hkc.
    destruct (decide (k = "header")) as [->|Hh];
      [|destruct (decide (k = "body")) as [->|Hb]].
    + vm_compute in Hkc. injection Hkc as <-. split; [done|]. vm_compute. eauto.
    + vm_compute in Hkc. injection Hkc as <-. split; [done|]. vm_compute. eauto.
    + cbn [_child_views] in Hkc. rewrite lookup_insert_ne, lookup_singleton_ne in Hkc by done. done.
  - exists "header", 1. split; [vm_compute; reflexivity|].
    intros (vc & Hvc & Hst). vm_compute in Hvc. injection Hvc as <-. discriminate.
  - exists w1. split; [exact Hrun|exact Htpl].
Defined.

(** Two more inputs the amended statement leaves out: an empty first
    template is overwritten by the next one, and a canceled view with a
    pending child stores nothing. *)
Lemma empty_template_is_overwritten :
  ¬ first_render_template_wins body_done 0 "" "b.html".
Proof.
  intros Hclaim.
  specialize (Hclaim
    (mkBifocals {["header" := 1; "body" := 2]} {["body" := VString "<p>hi</p>"]}
                RENDER_NOT_CALLED None 0 html
                None (Some "tpl/") (ServerResponse None ∅ [] 0) (user_handler 0))
    (exec (render 0 (Some "") false >> render 0 (Some "b.html") false) body_done)).
  assert (Hno : template <$> views (exec (render 0 (Some "") false >>
                  render 0 (Some "b.html") false) body_done) !! 0
                = Some (Some "b.html")) by (vm_compute; reflexivity).
  rewrite Hclaim in Hno; [discriminate|vm_compute; reflexivity| |vm_compute; reflexivity].
  exists "header", 1. split; [vm_compute; reflexivity|].
  intros (vc & Hvc & Hst). vm_compute in Hvc. injection Hvc as <-. discriminate.
Qed.

(** ** Signals that fire before a handler is registered *)

(** In revision [part_001] the handler runs inside [error (fn)]. *)
Lemma signal_waits_for_tick_fails_in_part_001 :
  ¬ signal_waits_for_tick Rev1.Renderer__error Rev1.Renderer_error
      lone_renderer 0 "boom" 9.
Proof.
  intros Hclaim.
  destruct (Hclaim (exec (Rev1.Renderer__error 0 "boom" >>
                          Rev1.Renderer_error 0 (external_fn 9)) lone_renderer))
    as [Hcalls _]; [vm_compute; reflexivity|].
  vm_compute in Hcalls. discriminate.
Qed.

Lemma get_renderer_Ret w r o :
  renderer_objs w !! r = Some o → get_renderer r w = Ret o w.
Proof. unfold get_renderer. by intros ->. Qed.

Lemma modify_renderer_Ret w r o f :
  renderer_objs w !! r = Some o →
  modify_renderer r f w =
    Ret tt (with_renderer_objs (<[r := f o]> (renderer_objs w)) w).
Proof. unfold modify_renderer. by intros ->. Qed.

(** C8, amended. A signal that fires on a renderer before a handler is
    registered is kept.  In revision [part_000] registering the handler puts
    its call, with the pending error, at the end of the [nextTick] queue and
    calls nothing; the turn of the queue that reaches it calls it.  In
    revision [part_001] registering the handler calls it at once, inside
    [error (fn)] or [end (fn)], and the queue is not used. *)
Theorem pending_signal_is_delivered w r o err fn :
  renderer_objs w !! r = Some o →
  fresh_renderer o →
  let w_err := with_renderer_objs
                 (<[r := with_r_error (pending_error err) o]> (renderer_objs w)) w in
  let w_end := with_renderer_objs
                 (<[r := with_r_end pending_end o]> (renderer_objs w)) w in
  (Renderer__error r err >> Renderer_error r fn) w
    = Ret tt (with_ticks (ticks w ++ [call_fn fn (Some err)]) w_err) ∧
  (Renderer__end r >> Renderer_end r fn) w
    = Ret tt (with_ticks (ticks w ++ [call_fn fn None]) w_end) ∧
  (∀ w' arg ts, ticks w' = call_fn fn arg :: ts →
                tick w' = call_callback fn arg (with_ticks ts w')) ∧
  (Rev1.Renderer__error r err >> Rev1.Renderer_error r fn) w
    = call_callback fn (Some err) w_err ∧
  (Rev1.Renderer__end r >> Rev1.Renderer_end r fn) w
    = call_callback fn None w_end.
Proof.
  intros Hr (He & H_e & Hn & H_n) w_err w_end.
  assert (Hr_err : renderer_objs w_err !! r = Some (with_r_error (pending_error err) o)).
  { subst w_err. simpl. apply list_lookup_insert_eq. by eapply lookup_lt_Some. }
  assert (Hr_end : renderer_objs w_end !! r = Some (with_r_end pending_end o)).
  { subst w_end. simpl. apply list_lookup_insert_eq. by eapply lookup_lt_Some. }
  assert (Hfire_err : Renderer__error r err w = Ret tt w_err).
  { unfold Renderer__error.
    erewrite bind_Ret by (by apply get_renderer_Ret). cbv beta iota.
    rewrite H_e. by apply modify_renderer_Ret. }
  assert (Hfire_end : Renderer__end r w = Ret tt w_end).
  { unfold Renderer__end.
    erewrite bind_Ret by (by apply get_renderer_Ret). cbv beta iota.
    rewrite H_n. by apply modify_renderer_Ret. }
  repeat split.
  - mstep Hfire_err. unfold Renderer_error.
    erewrite bind_Ret by (apply get_renderer_Ret; exact Hr_err). done.
  - mstep Hfire_end. unfold Renderer_end.
    erewrite bind_Ret by (apply get_renderer_Ret; exact Hr_end). done.
  - intros w' arg ts Hq. unfold tick. by rewrite Hq.
  - change (Rev1.Renderer__error r err) with (Renderer__error r err).
    mstep Hfire_err. unfold Rev1.Renderer_error.
    erewrite bind_Ret by (apply get_renderer_Ret; exact Hr_err). done.
  - change (Rev1.Renderer__end r) with (Renderer__end r).
    mstep Hfire_end. unfold Rev1.Renderer_end.
    erewrite bind_Ret by (apply get_renderer_Ret; exact Hr_end). done.
Qed.

Lemma pending_signal_is_delivered_witness :
  ticks (exec (Renderer__error 0 "boom" >> Renderer_error 0 (external_fn 9)) lone_renderer)
    = [call_fn (external_fn 9) (Some "boom")] ∧
  calls (exec (Renderer__error 0 "boom" >> Renderer_error 0 (external_fn 9) >> tick)
              lone_renderer)
    = [(9, Some "boom")].
Proof.
  destruct (pending_signal_is_delivered lone_renderer 0
              (mkRenderer 7 None renderer_error None renderer_end None)
              "boom" (external_fn 9)) as (Hrun & _);
    [reflexivity|done|].
  split.
  - unfold exec. rewrite Hrun. reflexivity.
  - vm_compute. reflexivity.
Defined.

(** ** State transitions *)

#[global] Instance T_cancel_refl : Reflexive T_cancel.
Proof. by left. Qed.
#[global] Instance T_cancel_trans : Transitive T_cancel.
Proof. unfold T_cancel. intros x y z [->| ->] [->| ->]; auto. Qed.
#[global] Instance T_render_refl : Reflexive T_render.
Proof. by left. Qed.
#[global] Instance T_render_trans : Transitive T_render.
Proof.
  unfold T_render. intros x y z [->|[Hx Hy]] [->|[Hy' Hz]]; auto.
Qed.
#[global] Instance T_force_refl : Reflexive T_force.
Proof. by left. Qed.
#[global] Instance T_force_trans : Transitive T_force.
Proof. unfold T_force. intros x y z [->|Hy] [->|Hz]; auto. Qed.
#[global] Instance T_signal_refl : Reflexive T_signal.
Proof. by left. Qed.
#[global] Instance T_signal_trans : Transitive T_signal.
Proof. unfold T_signal. intros x y z [->|Hy] [->|Hz]; auto. Qed.

Section respects.
Context (T : relation render_states) `{!Reflexive T, !Transitive T}.

Lemma lifts_refl w : lifts T w w.
Proof using Type*. intros d s Hd. by exists s. Qed.

Lemma lifts_trans w1 w2 w3 : lifts T w1 w2 → lifts T w2 w3 → lifts T w1 w3.
Proof using Type*.
  intros H12 H23 d s Hd. destruct (H12 d s Hd) as (s2 & Hd2 & Hs2).
  destruct (H23 d s2 Hd2) as (s3 & Hd3 & Hs3). exists s3. split; [done|].
  by transitivity s2.
Qed.

Lemma lifts_same_views w w' : views w' = views w → lifts T w w'.
Proof using Type*.
  intros Hv d s Hd. exists s. unfold state_at in *. by rewrite Hv.
Qed.

Lemma respects_views {A} (m : M A) :
  (∀ w, views (world_of (m w)) = views w) → respects T m.
Proof using Type*. intros Hv w. by apply lifts_same_views. Qed.

Lemma respects_ret {A} (a : A) : respects T (ret a).
Proof using Type*. intros w. apply lifts_refl. Qed.

Lemma respects_throw {A} e : respects T (@throw A e).
Proof using Type*. intros w. apply lifts_refl. Qed.

Lemma respects_bind {A B} (m : M A) (k : A → M B) :
  respects T m → (∀ a, respects T (k a)) → respects T (bind m k).
Proof using Type*.
  intros Hm Hk w. specialize (Hm w). unfold bind.
  destruct (m w) as [a w1|e w1]; simpl in *; [|done].
  eapply lifts_trans; [exact Hm|apply Hk].
Qed.

Lemma respects_for_each {A} (l : list A) (body : A → M unit) :
  (∀ x, respects T (body x)) → respects T (for_each l body).
Proof using Type*.
  intros Hb. induction l as [|x l IH]; simpl.
  - apply respects_ret.
  - apply respects_bind; [apply Hb|done].
Qed.

Lemma respects_get_view a : respects T (get_view a).
Proof using Type*.
  apply respects_views. intros w. unfold get_view. by destruct (views w !! a).
Qed.

Lemma respects_modify_view a f :
  (∀ v, T (render_state v) (render_state (f v))) → respects T (modify_view a f).
Proof using Type*.
  intros Hf w d s Hd. unfold modify_view.
  destruct (views w !! a) as [v|] eqn:Ha; simpl; [|by exists s].
  unfold state_at in *. simpl. destruct (decide (d = a)) as [->|Hne].
  - rewrite (lookup_modified _ _ _ _ Ha). simpl. eexists. split; [done|].
    rewrite Ha in Hd. injection Hd as <-. apply Hf.
  - rewrite list_lookup_insert_ne by done. by exists s.
Qed.

Lemma respects_all_rendered cs : respects T (all_rendered cs).
Proof using Type*.
  induction cs as [|[k c] cs IH]; simpl; [apply respects_ret|].
  apply respects_bind; [apply respects_get_view|].
  intros vc. destruct (isRendered vc); [done|apply respects_ret].
Qed.

Lemma respects_canRender a : respects T (canRender a).
Proof using Type*.
  apply respects_bind; [apply respects_get_view|].
  intros v. case_bool_decide; [apply respects_ret|apply respects_all_rendered].
Qed.

Lemma respects_nextTick t : respects T (nextTick t).
Proof using Type*. by apply respects_views. Qed.

Lemma respects_call_external id arg : respects T (call_external id arg).
Proof using Type*. by apply respects_views. Qed.

Lemma respects_get_renderer r : respects T (get_renderer r).
Proof using Type*.
  apply respects_views. intros w. unfold get_renderer.
  by destruct (renderer_objs w !! r).
Qed.

Lemma respects_modify_renderer r f : respects T (modify_renderer r f).
Proof using Type*.
  apply respects_views. intros w. unfold modify_renderer.
  by destruct (renderer_objs w !! r).
Qed.

Lemma respects_Renderer_error r fn : respects T (Renderer_error r fn).
Proof using Type*.
  apply respects_bind; [apply respects_get_renderer|].
  intros o. destruct (r_error o); [apply respects_modify_renderer|apply respects_nextTick].
Qed.

Lemma respects_Renderer_end r fn : respects T (Renderer_end r fn).
Proof using Type*.
  apply respects_bind; [apply respects_get_renderer|].
  intros o. destruct (r_end o); [apply respects_modify_renderer|apply respects_nextTick].
Qed.

Lemma respects_buildRenderer a : respects T (buildRenderer a).
Proof using Type*.
  apply respects_bind; [apply respects_get_view|]. intros v.
  apply respects_bind.
  { apply respects_views. intros w. unfold getRenderer.
    by destruct (_renderers w !! _). }
  intros class. apply respects_bind; [by apply respects_views|]. intros r.
  apply respects_bind; [apply respects_Renderer_error|]. intros _.
  apply respects_bind; [apply respects_Renderer_end|]. intros _.
  apply respects_ret.
Qed.

Lemma respects_Renderer_render r path : respects T (Renderer_render r path).
Proof using Type*.
  apply respects_bind; [apply respects_get_renderer|]. intros o.
  by apply respects_views.
Qed.

Lemma respects_set a key val : respects T (set a key val).
Proof using Type*. apply respects_modify_view. intros v. simpl. reflexivity. Qed.
End respects.

Lemma respects_mono {A} (T1 T2 : relation render_states) (m : M A) :
  (∀ s s', T1 s s' → T2 s s') → respects T1 m → respects T2 m.
Proof.
  intros Hsub Hm w d s Hd. destruct (Hm w d s Hd) as (s' & Hd' & Hs).
  exists s'. split; [done|]. by apply Hsub.
Qed.

Lemma lifts_insert (T : relation render_states) `{!Reflexive T} w w' a v v' :
  views w !! a = Some v →
  views w' = <[a := v']> (views w) →
  T (render_state v) (render_state v') →
  lifts T w w'.
Proof.
  intros Ha Hv HT d s Hd. unfold state_at in *. rewrite Hv.
  destruct (decide (d = a)) as [->|Hne].
  - rewrite (lookup_modified _ _ _ _ Ha). simpl. eexists. split; [done|].
    rewrite Ha in Hd. by injection Hd as <-.
  - rewrite list_lookup_insert_ne by done. by exists s.
Qed.

Lemma lifts_eq (T : relation render_states) `{!Reflexive T} w w' :
  lifts eq w w' → lifts T w w'.
Proof.
  intros H d s Hd. destruct (H d s Hd) as (s' & Hd' & <-). by exists s.
Qed.

(** Applies a lemma of the section above and finds the instances it asks for. *)
Ltac resp lem := apply lem; try exact _.

Lemma canRender_keeps_world a w : world_of (canRender a w) = w.
Proof.
  unfold canRender, bind, get_view. destruct (views w !! a) as [v|]; [|done].
  case_bool_decide; [done|].
  induction (map_to_list (_child_views v)) as [|[k c] cs IH]; simpl; [done|].
  unfold bind, get_view. destruct (views w !! c) as [vc|]; [|done].
  by destruct (isRendered vc).
Qed.

Lemma cancelRender_fuel_respects f a : respects T_cancel (cancelRender_fuel f a).
Proof.
  revert a. induction f as [|f IH]; intros a; simpl.
  - resp respects_throw.
  - resp respects_bind; [resp respects_get_view |]. intros v.
    resp respects_bind.
    { resp respects_modify_view. intros v'. by right. }
    intros _. resp respects_bind.
    { resp respects_for_each. intros kc. apply IH. }
    intros _. resp respects_modify_view. intros v'. by left.
Qed.

Lemma cancelRender_respects a : respects T_cancel (cancelRender a).
Proof. intros w. apply cancelRender_fuel_respects. Qed.

Lemma render_unforced_respects a tmpl : respects T_render (render_unforced a tmpl).
Proof.
  intros w. unfold render_unforced, bind at 1, get_view.
  destruct (views w !! a) as [v|] eqn:Ha; [|resp lifts_refl].
  case_bool_decide as Hst; [resp lifts_refl |].
  unfold bind at 1. erewrite modify_view_Ret by done.
  set (w1 := with_views _ w).
  assert (Ha1 : views w1 !! a = Some (with_render_state RENDER_REQUESTED v))
    by (by eapply lookup_modified).
  assert (H01 : lifts T_render w w1).
  { apply (lifts_insert T_render w w1 a v (with_render_state RENDER_REQUESTED v) Ha); [done|]. right. simpl. auto. }
  apply (lifts_trans T_render w w1); [exact H01|].
  unfold bind at 1. pose proof (canRender_keeps_world a w1) as Hcan.
  destruct (canRender a w1) as [[] w1'|e w1']; simpl in Hcan; subst w1';
    [| |resp lifts_refl].
  - unfold bind at 1. erewrite modify_view_Ret by exact Ha1.
    set (w2 := with_views _ w1).
    assert (H12 : lifts T_render w1 w2).
    { apply (lifts_insert T_render w1 w2 a _
               (with_render_state RENDER_STARTED (with_render_state RENDER_REQUESTED v)) Ha1);
        [done|]. right. simpl. auto. }
    apply (lifts_trans T_render w1 w2); [exact H12|]. resp lifts_eq.
    revert w2 H12. intros w2 _. revert w2.
    resp respects_bind; [resp respects_get_view |]. intros v2.
    resp respects_bind; [resp respects_buildRenderer |].
    intros r. resp respects_Renderer_render.
  - resp lifts_eq. revert w1 Ha1 H01. intros w1 _ _. revert w1.
    resp respects_bind; [resp respects_get_view |]. intros v2.
    destruct (truthy (template v2)); [resp respects_ret |].
    resp respects_modify_view. by intros v'.
Qed.

Lemma render_forced_respects a tmpl : respects T_force (render a tmpl true).
Proof.
  unfold render. simpl.
  resp respects_bind.
  { eapply respects_mono; [|apply cancelRender_respects].
    unfold T_cancel, T_force. intros s s' [->| ->]; auto. }
  intros _. resp respects_bind.
  { resp respects_modify_view. intros v. unfold T_force. simpl. auto. }
  intros _. resp respects_bind.
  { resp respects_modify_view. intros v. by left. }
  intros _. eapply respects_mono; [|apply render_unforced_respects].
  unfold T_render, T_force. intros s s' [->|[_ [->| ->]]]; auto.
Qed.

Lemma call_callback_respects fn arg : respects T_signal (call_callback fn arg).
Proof.
  destruct fn as [a|a|id]; simpl.
  - resp respects_bind.
    { resp respects_modify_view. intros v. unfold T_signal. simpl. auto. }
    intros _. resp respects_bind; [resp respects_get_view |].
    intros v. destruct (_error v); simpl.
    + resp respects_throw.
    + resp respects_call_external.
  - resp respects_modify_view. intros v. unfold T_signal. simpl. auto.
  - resp respects_call_external.
Qed.

Lemma Renderer__end_respects r : respects T_signal (Renderer__end r).
Proof.
  resp respects_bind; [resp respects_get_renderer |].
  intros o. destruct (r__end o).
  - apply call_callback_respects.
  - resp respects_modify_renderer.
Qed.

Lemma Renderer__error_respects r err : respects T_signal (Renderer__error r err).
Proof.
  resp respects_bind; [resp respects_get_renderer |].
  intros o. destruct (r__error o).
  - apply call_callback_respects.
  - resp respects_modify_renderer.
Qed.

Lemma response_end_respects a : respects T_signal (response_end a).
Proof.
  resp respects_bind; [resp respects_get_view |].
  intros v. destruct (response v).
  - resp respects_throw.
  - resp respects_bind.
    { resp respects_modify_view. intros v'. unfold T_signal. simpl. auto. }
    intros _. resp respects_bind; [resp respects_get_view |].
    intros v'. destruct (parent v'); [|resp respects_throw].
    resp respects_bind; [resp respects_set |].
    intros _. resp respects_bind; [resp respects_canRender |].
    intros []; [resp respects_nextTick|resp respects_ret].
  - resp respects_modify_view. by intros v'.
Qed.

Lemma tick_effect w :
  lifts (λ s s', T_render s s' ∨ T_signal s s') w (world_of (tick w)).
Proof.
  unfold tick. destruct (ticks w) as [|t ts] eqn:Hq.
  { intros d s Hd. exists s. split; [done|]. left. by left. }
  assert (Hsame : ∀ d, state_at (with_ticks ts w) d = state_at w d) by done.
  destruct t as [c|fn arg]; simpl.
  - intros d s Hd. rewrite <-Hsame in Hd.
    assert (Hr : respects T_render
              (let! v := get_view c in
               match parent v with
               | Some p => render p None false
               | None => throw TypeError
               end)).
    { resp respects_bind; [resp respects_get_view |].
      intros v. destruct (parent v); [|resp respects_throw].
      apply render_unforced_respects. }
    destruct (Hr _ d s Hd) as (s' & Hd' & Hs). exists s'. auto.
  - intros d s Hd. rewrite <-Hsame in Hd.
    destruct (call_callback_respects fn arg _ d s Hd) as (s' & Hd' & Hs).
    exists s'. auto.
Qed.

Lemma run_op_effect o w d s :
  state_at w d = Some s →
  ∃ s', state_at (exec (run_op o) w) d = Some s' ∧ op_effect o s s'.
Proof.
  intros Hd. destruct o as [a tmpl [] |a|r|r err|a|]; simpl.
  - by apply render_forced_respects.
  - by apply render_unforced_respects.
  - by apply cancelRender_respects.
  - by apply Renderer__end_respects.
  - by apply Renderer__error_respects.
  - by apply response_end_respects.
  - by apply tick_effect.
Qed.

Lemma op_effect_leaves_not_called o s s' :
  op_effect o s s' → s ≠ RENDER_NOT_CALLED → s' ≠ RENDER_NOT_CALLED.
Proof.
  unfold op_effect, T_render, T_force, T_cancel, T_signal.
  destruct o as [a tmpl [] |a|r|r err|a|]; intros Heff Hs; intuition congruence.
Qed.

Lemma op_effect_unforced o s' :
  unforced o → op_effect o RENDER_CANCELED s' → s' = RENDER_CANCELED.
Proof.
  unfold op_effect, T_render, T_cancel.
  destruct o as [a tmpl [] |a|r|r err|a|]; simpl; intros Hu Heff; intuition congruence.
Qed.

(** A forced render takes the canceled root of the page to
    [RENDER_STARTED], a move the lifecycle does not have. *)
Lemma forward_only_fails :
  ¬ forward_only canceled_page 0 [op_render 0 (Some "500.html") true].
Proof.
  intros Hclaim.
  specialize (Hclaim RENDER_CANCELED RENDER_STARTED).
  apply rtc_inv in Hclaim as [Heq|(s & Hstep & _)];
    [discriminate| |vm_compute; reflexivity..].
  inversion Hstep; congruence.
Qed.

(** Nor is [RENDER_COMPLETE] final: a later [render] starts the view again,
    and [cancelRender] cancels it. *)
Lemma complete_is_not_final :
  state_at body_done 2 = Some RENDER_COMPLETE ∧
  state_at (run_ops [op_render 2 None false] body_done) 2 = Some RENDER_STARTED ∧
  state_at (run_ops [op_cancelRender 0] body_done) 2 = Some RENDER_CANCELED.
Proof. repeat split; vm_compute; reflexivity. Qed.

(** C3, amended. Every operation changes the state of a view only as
    [op_effect] allows: [render] without force leaves a canceled view alone
    and takes any other to [RENDER_REQUESTED] or [RENDER_STARTED];
    [cancelRender] takes any state to [RENDER_CANCELED]; [render] with force
    takes any state to [RENDER_CANCELED], [RENDER_REQUESTED] or
    [RENDER_STARTED]; the renderer's signals and the adapter's [end] take any
    state to [RENDER_COMPLETE] or [RENDER_FAILED]; a turn of the queue does
    one of the two.  So along every sequence of operations a view never
    returns to [RENDER_NOT_CALLED], and a sequence of renders without force
    and of [cancelRender] leaves a canceled view canceled. *)
Theorem state_follows_op_effects w d s :
  state_at w d = Some s →
  (∀ o, ∃ s', state_at (exec (run_op o) w) d = Some s' ∧ op_effect o s s') ∧
  (∀ os, ∃ s', state_at (run_ops os w) d = Some s' ∧
               (s ≠ RENDER_NOT_CALLED → s' ≠ RENDER_NOT_CALLED) ∧
               (Forall unforced os → s = RENDER_CANCELED → s' = RENDER_CANCELED)).
Proof.
  intros Hd. split; [intros o; by apply run_op_effect|].
  intros os. revert w s Hd. induction os as [|o os IH]; intros w s Hd; simpl.
  - exists s. by repeat split.
  - destruct (run_op_effect o w d s Hd) as (s1 & Hd1 & Heff).
    destruct (IH _ s1 Hd1) as (s' & Hd' & Hup & Hcan).
    exists s'. split; [done|]. split.
    + intros Hs. apply Hup. by eapply op_effect_leaves_not_called.
    + intros [Hu Hus]%Forall_cons -> . apply Hcan; [done|].
      by eapply op_effect_unforced.
Qed.

Lemma state_follows_op_effects_witness :
  state_at (run_ops [op_render 0 (Some "late.html") false; op_cancelRender 0]
                    canceled_page) 0
    = Some RENDER_CANCELED.
Proof.
  destruct (state_follows_op_effects canceled_page 0 RENDER_CANCELED) as [_ Hseq];
    [vm_compute; reflexivity|].
  destruct (Hseq [op_render 0 (Some "late.html") false; op_cancelRender 0])
    as (s' & Hs' & _ & Hcan).
  rewrite Hs'. f_equal. apply Hcan; [|done].
  by repeat constructor.
Defined.

(** ** The two revisions *)


Lemma bind_ext {A B} (m : M A) (k1 k2 : A → M B) w :
  (∀ a w', k1 a w' = k2 a w') → bind m k1 w = bind m k2 w.
Proof. intros Hk. unfold bind. by destruct (m w). Qed.


Lemma for_each_ext {A} (l : list A) (b1 b2 : A → M unit) w :
  (∀ x w', b1 x w' = b2 x w') → for_each l b1 w = for_each l b2 w.
Proof.
  intros Hb. revert w. induction l as [|x l IH]; intros w; simpl; [done|].
  unfold bind. rewrite Hb. by destruct (b2 x w).
Qed.

Lemma Rev1_cancelRender_fuel f a w :
  Rev1.cancelRender_fuel f a w = cancelRender_fuel f a w.
Proof.
  revert a w. induction f as [|f IH]; intros a w; simpl; [done|].
  apply bind_ext. intros v w1. apply bind_ext. intros _ w2.
  unfold bind.
  by rewrite (for_each_ext _ _ (λ kc, cancelRender_fuel f kc.2)) by (intros; apply IH).
Qed.

Lemma Rev1_cancelRender a w : Rev1.cancelRender a w = cancelRender a w.
Proof. apply Rev1_cancelRender_fuel. Qed.





Lemma insert_as_alter (vs : list Bifocals) a v f :
  vs !! a = Some v → <[a := f v]> vs = alter f a vs.
Proof.
  intros Ha. rewrite list_insert_alter. apply list_alter_ext; [|done].
  intros v' Hv'. congruence.
Qed.

Lemma modify_view_alter a f w :
  modify_view a f w =
    match views w !! a with
    | Some _ => Ret tt (with_views (alter f a (views w)) w)
    | None => Throw BadAddress w
    end.
Proof.
  unfold modify_view. destruct (views w !! a) as [v|] eqn:Ha; [|done].
  by rewrite (insert_as_alter _ _ _ _ Ha).
Qed.

Lemma lookup_on_view r g w a :
  views (on_view r g w) !! a =
    (if decide (a = r) then g else id) <$> views w !! a.
Proof.
  simpl. destruct (decide (a = r)) as [->|Hne].
  - apply list_lookup_alter_eq.
  - rewrite list_lookup_alter_ne by done. by destruct (views w !! a).
Qed.

Lemma modify_view_on_view a h r g w :
  (∀ v, h (g v) = g (h v)) →
  modify_view a h (on_view r g w) = map_res (on_view r g) (modify_view a h w).
Proof.
  intros Hc. rewrite !modify_view_alter, lookup_on_view.
  destruct (views w !! a) as [v|] eqn:Ha; simpl; [|done].
  assert (Hsw : alter h a (alter g r (views w)) = alter g r (alter h a (views w))).
  { destruct (decide (a = r)) as [->|Hne].
    - rewrite !list_alter_alter_eq. apply list_alter_ext; [|done].
      intros v' _. apply Hc.
    - by apply list_alter_alter_ne. }
  unfold on_view, with_views. simpl. by rewrite Hsw.
Qed.

Lemma bind_on_view {A B} F (m : M A) (k : A → M B) w :
  m (F w) = map_res F (m w) →
  (∀ x w', k x (F w') = map_res F (k x w')) →
  bind m k (F w) = map_res F (bind m k w).
Proof.
  intros Hm Hk. unfold bind. rewrite Hm. destruct (m w) as [x w1|e w1]; simpl; [|done].
  apply Hk.
Qed.

Lemma for_each_on_view {A} F (l : list A) (body : A → M unit) w :
  (∀ x w', body x (F w') = map_res F (body x w')) →
  for_each l body (F w) = map_res F (for_each l body w).
Proof.
  intros Hb. revert w. induction l as [|x l IH]; intros w; simpl; [done|].
  apply bind_on_view; [apply Hb|]. intros _ w'. apply IH.
Qed.

Lemma cancelRender_fuel_on_view f a r g w :
  inert g →
  cancelRender_fuel f a (on_view r g w) =
    map_res (on_view r g) (cancelRender_fuel f a w).
Proof.
  intros (Hch & _ & Hst & Hcv). revert a w.
  induction f as [|f IH]; intros a w; simpl; [done|].
  unfold bind at 1 4. unfold get_view. rewrite lookup_on_view.
  destruct (views w !! a) as [v|] eqn:Ha; simpl; [|done].
  assert (Hsame : _child_views ((if decide (a = r) then g else id) v) = _child_views v)
    by (by destruct (decide (a = r))).
  rewrite Hsame. fold (on_view r g w).
  apply bind_on_view; [by apply modify_view_on_view|]. intros _ w1.
  apply bind_on_view; [|intros _ w2; by apply modify_view_on_view].
  apply for_each_on_view. intros kc w2. apply IH.
Qed.

Lemma cancelRender_on_view a r g w :
  inert g →
  cancelRender a (on_view r g w) = map_res (on_view r g) (cancelRender a w).
Proof.
  intros Hg. unfold cancelRender. simpl. rewrite length_alter.
  by apply cancelRender_fuel_on_view.
Qed.



Lemma assign_statusCode_Ret w r v code sc hs chunks ended :
  views w !! r = Some v →
  response v = ServerResponse sc hs chunks ended →
  assign_statusCode r code w =
    Ret tt (on_view r (with_response (ServerResponse (Some code) hs chunks ended)) w).
Proof.
  intros Hr Hresp. unfold assign_statusCode. mget Hr. rewrite Hresp.
  rewrite modify_view_alter, Hr. done.
Qed.

Lemma response_setHeader_Ret w r v name val sc hs chunks ended :
  views w !! r = Some v →
  response v = ServerResponse sc hs chunks ended →
  response_setHeader r name val w =
    Ret tt (on_view r (with_response (ServerResponse sc (<[name := val]> hs) chunks ended)) w).
Proof.
  intros Hr Hresp. unfold response_setHeader. mget Hr. rewrite Hresp.
  rewrite modify_view_alter, Hr. done.
Qed.

(** What a change of the root's response leaves in place for the helpers. *)
Lemma on_view_response w a va r vr x :
  views w !! a = Some va → root va = r → views w !! r = Some vr →
  ∃ va', views (on_view r (with_response x) w) !! a = Some va' ∧
         root va' = r ∧
         views (on_view r (with_response x) w) !! r = Some (with_response x vr).
Proof.
  intros Ha Hroot Hr. rewrite !lookup_on_view, Ha, Hr.
  destruct (decide (r = r)); [|done]. simpl.
  eexists. split; [done|]. split; [|done]. by destruct (decide (a = r)).
Qed.

Lemma setStatusCode_Ret w a va vr code sc hs chunks ended :
  views w !! a = Some va →
  views w !! root va = Some vr →
  response vr = ServerResponse sc hs chunks ended →
  setStatusCode a code w =
    Ret tt (on_view (root va)
                    (with_response (ServerResponse (Some code) hs chunks ended)) w).
Proof.
  intros Ha Hr Hresp. unfold setStatusCode. mget Ha.
  by eapply assign_statusCode_Ret.
Qed.

Lemma setHeaders_one_Ret w a va vr name val sc hs chunks ended :
  views w !! a = Some va →
  views w !! root va = Some vr →
  response vr = ServerResponse sc hs chunks ended →
  setHeaders a [(name, val)] w =
    Ret tt (on_view (root va)
                    (with_response (ServerResponse sc (<[name := val]> hs) chunks ended)) w).
Proof.
  intros Ha Hr Hresp. unfold setHeaders. simpl.
  erewrite bind_Ret; [reflexivity|]. mget Ha. simpl.
  by eapply response_setHeader_Ret.
Qed.




(** [statusNotModified] of [part_001] cancels the tree, sets the status and
    throws: its last line calls [end] on a property that revision never
    sets. *)
Lemma Rev1_statusNotModified_throws :
  ∃ w', Rev1.statusNotModified 1 page_world = Throw TypeError w'.
Proof. eexists. vm_compute. reflexivity. Qed.



(** ** The order of completions *)

Lemma complete_at_insert_ne_inv vs a (v' : Bifocals) c :
  c ≠ a → complete_at (<[a := v']> vs) c → complete_at vs c.
Proof.
  intros Hne (vc & Hc & Hst). exists vc. split; [|done].
  by rewrite list_lookup_insert_ne in Hc.
Qed.





Section family.
Context (w0 : world) (p : addr) (vp : Bifocals) (class : nat).
Context (Hreg : _renderers w0 !! registry_key (content_type vp) = Some class).









End family.



(** Outside such a schedule the parent can render twice: the adapter of a
    view that was replaced under its key is not in the children map, and its
    [end], coming after the last child's, finds the gate still open because
    the queued render has not run yet.  The data under the key is then the
    replaced view's. *)
Lemma replaced_child_renders_parent_twice :
  (inv_view <$> invocations replaced_child_run) = [Some 0; Some 0] ∧
  (_child_views <$> views replaced_child_run !! 0) = Some {["k" := 2]} ∧
  (_data <$> views replaced_child_run !! 0) = Some {["k" := VString "old"]}.
Proof. repeat split; vm_compute; reflexivity. Qed.

(** ** Well-formed arenas *)































(** ** The registry *)


(** ** The data of a view *)



(** ** Children and their output *)

Lemma insert_last {A} (l : list A) (x y : A) :
  <[length l := y]> (l ++ [x]) = l ++ [y].
Proof.
  rewrite (insert_app_r_alt _ _ (length l)) by done.
  by rewrite Nat.sub_diag.
Qed.

Lemma modify_last w vs x f :
  views w = vs ++ [x] →
  modify_view (length vs) f w = Ret tt (with_views (vs ++ [f x]) w).
Proof.
  intros Hv. unfold modify_view. rewrite Hv, list_lookup_middle by done.
  by rewrite insert_last.
Qed.

Lemma child_Ret w a va key tmpl :
  views w !! a = Some va →
  child a key tmpl w =
    Ret (length (views w)) (with_views (with_child (views w) a va key tmpl) w).
Proof.
  intros Ha. pose proof (lookup_lt_Some _ _ _ Ha) as Hlt.
  unfold child. mget Ha. unfold bind at 1. unfold new_Bifocals.
  set (n := length (views w)). unfold error.
  repeat (erewrite bind_Ret by (by apply modify_last); cbv beta iota; simpl).
  destruct (truthy tmpl) eqn:Ht.
  - repeat (erewrite bind_Ret by (by apply modify_last); cbv beta iota; simpl).
    erewrite bind_Ret
      by (apply modify_view_Ret; simpl; rewrite lookup_app_l by done; exact Ha).
    unfold with_child, child_view. by rewrite Ht.
  - unfold bind at 1. unfold ret.
    repeat (erewrite bind_Ret by (by apply modify_last); cbv beta iota; simpl).
    erewrite bind_Ret
      by (apply modify_view_Ret; simpl; rewrite lookup_app_l by done; exact Ha).
    unfold with_child, child_view. by rewrite Ht.
Qed.

Lemma with_child_length vs a va key tmpl :
  length (with_child vs a va key tmpl) = S (length vs).
Proof. unfold with_child. rewrite length_insert, length_app. simpl. lia. Qed.

Lemma with_child_parent vs a va key tmpl :
  a < length vs →
  with_child vs a va key tmpl !! a =
    Some (with_child_views (<[key := length vs]> (_child_views va)) va).
Proof.
  intros Hlt. unfold with_child. apply list_lookup_insert_eq.
  rewrite length_app. lia.
Qed.

Lemma with_child_new vs a va key tmpl :
  a < length vs →
  with_child vs a va key tmpl !! length vs = Some (child_view a va key tmpl).
Proof.
  intros Hlt. unfold with_child. rewrite list_lookup_insert_ne by lia.
  by apply list_lookup_middle.
Qed.

Lemma with_child_other vs a va key tmpl d :
  d ≠ a → d ≠ length vs → with_child vs a va key tmpl !! d = vs !! d.
Proof.
  intros Hda Hdn. unfold with_child. rewrite list_lookup_insert_ne by done.
  destruct (decide (d < length vs)) as [Hd|Hd].
  - by rewrite lookup_app_l.
  - rewrite !lookup_ge_None_2; [done|lia|rewrite length_app; simpl; lia].
Qed.





Lemma with_response_same v : with_response (response v) v = v.
Proof. by destruct v. Qed.





(** X6. [end ()] of a response never renders: whatever the view and the
    state of the world, it builds no renderer, calls none and calls no
    function of the application; the only thing it may add to the
    [nextTick] queue is one render of the parent of the view. *)
Theorem response_end_defers_render w c :
  let w' := exec (response_end c) w in
  invocations w' = invocations w ∧
  renderer_objs w' = renderer_objs w ∧
  calls w' = calls w ∧
  _renderers w' = _renderers w ∧
  (ticks w' = ticks w ∨ ticks w' = ticks w ++ [render_parent_of c]).
Proof.
  intros w'. subst w'. unfold exec.
  remember (response_end c w) as r eqn:Hr.
  assert (Hsame : ∀ x, r = x → views (world_of x) = views (world_of x) →
            ticks (world_of x) = ticks w → invocations (world_of x) = invocations w →
            renderer_objs (world_of x) = renderer_objs w →
            calls (world_of x) = calls w → _renderers (world_of x) = _renderers w →
            invocations (world_of r) = invocations w ∧
            renderer_objs (world_of r) = renderer_objs w ∧
            calls (world_of r) = calls w ∧ _renderers (world_of r) = _renderers w ∧
            (ticks (world_of r) = ticks w ∨
             ticks (world_of r) = ticks w ++ [render_parent_of c])).
  { intros x -> _ Ht Hi Ho Hc Hg. repeat split; try done. by left. }
  unfold response_end, bind at 1, get_view in Hr.
  destruct (views w !! c) as [vc|]; [|by eapply Hsame].
  destruct (response vc) as [|buffer key sc|sc hs chunks ended].
  - by eapply Hsame.
  - unfold bind at 1, modify_view at 1 in Hr.
    destruct (views w !! c) as [vc'|]; [|by eapply Hsame].
    unfold bind at 1, get_view in Hr.
    destruct (views _ !! c) as [vc''|]; [|by eapply Hsame].
    destruct (parent vc'') as [p|]; [|by eapply Hsame].
    unfold bind at 1, set, modify_view at 1 in Hr.
    destruct (views _ !! p) as [vp|]; [|by eapply Hsame].
    unfold bind in Hr. set (w4 := with_views _ (with_views _ w)) in Hr.
    pose proof (canRender_keeps_world p w4) as Hcan.
    destruct (canRender p w4) as [[] w5|e w5]; simpl in Hcan; subst w5;
      [|by eapply Hsame..].
    subst r. repeat split; try done. by right.
  - unfold modify_view in Hr. destruct (views w !! c); by eapply Hsame.
Qed.

(** ** Renders, their renderers and their signals *)



Lemma started_world_renderer w a v class tmpl :
  renderer_objs (started_world w a v class tmpl) !! length (renderer_objs w)
  = Some (built_renderer class a).
Proof. simpl. by apply list_lookup_middle. Qed.

(** X8. The two functions [buildRenderer] hands to the renderer of a view.
    After a render that passed the gate, the renderer's [_end ()] puts the
    view in state [RENDER_COMPLETE] and does nothing else: nothing is written
    to the parent and nothing is queued.  Its [_error (err)] puts the view in
    state [RENDER_FAILED] and calls the error handler of the view with [err];
    with no handler assigned, the default one throws, the state being
    [RENDER_FAILED] already. *)
Theorem renderer_signals_set_state w a v tmpl class :
  views w !! a = Some v →
  render_state v ≠ RENDER_CANCELED →
  (∀ k c, _child_views v !! k = Some c → c ≠ a ∧ complete_at (views w) c) →
  _renderers w !! registry_key (content_type v) = Some class →
  let r := length (renderer_objs w) in
  let w1 := started_world w a v class tmpl in
  render a tmpl false w = Ret tt w1 ∧
  Renderer__end r w1 =
    Ret tt (with_views (<[a := with_render_state RENDER_COMPLETE v]> (views w)) w1) ∧
  ∀ err,
    Renderer__error r err w1 =
      let failed := with_views (<[a := with_render_state RENDER_FAILED v]> (views w)) w1 in
      match _error v with
      | user_handler id => Ret tt (with_calls (calls w ++ [(id, Some err)]) failed)
      | bifocals_defaultError => Throw No_error_handler failed
      end.
Proof.
  intros Ha Hst Hch Hreg r w1.
  assert (Hr : renderer_objs w1 !! r = Some (built_renderer class a))
    by apply started_world_renderer.
  assert (Ha1 : views w1 !! a = Some (with_render_state RENDER_STARTED v))
    by (simpl; by eapply lookup_modified).
  split; [by apply render_unforced_open|]. split.
  - unfold Renderer__end. erewrite bind_Ret by (unfold get_renderer; by rewrite Hr).
    cbv beta iota. simpl. erewrite modify_view_Ret by exact Ha1.
    simpl. by rewrite list_insert_insert_eq.
  - intros err. unfold Renderer__error.
    erewrite bind_Ret by (unfold get_renderer; by rewrite Hr).
    cbv beta iota. simpl. mmod Ha1.
    erewrite bind_Ret by (apply get_view_Ret; simpl; by eapply lookup_modified).
    cbv beta iota. simpl. rewrite list_insert_insert_eq.
    by destruct (_error v).
Qed.

Lemma renderer_signals_set_state_witness :
  (render 0 (Some "index.html") false >> Renderer__error 0 "no such file") leaf_world
  = Ret tt (with_calls [(0, Some "no such file")]
              (exec (render 0 (Some "index.html") false >>
                     modify_view 0 (with_render_state RENDER_FAILED)) leaf_world)).
Proof.
  destruct (renderer_signals_set_state leaf_world 0
              (mkBifocals ∅ ∅ RENDER_NOT_CALLED None 0 html None (Some "tpl/")
                          (ServerResponse None ∅ [] 0) (user_handler 0))
              (Some "index.html") 7) as (Hrun & _ & Herr);
    [vm_compute; reflexivity|done| |vm_compute; reflexivity|].
  { intros k c Hkc. cbn [_child_views] in Hkc. by rewrite lookup_empty in Hkc. }
  mstep Hrun. rewrite Herr. vm_compute. reflexivity.
Defined.

(** X9. [render] does not guard against a second call.  On a view whose
    gate is open (not canceled, every child complete, a renderer
    registered), two calls without force build two renderer objects and call
    both, the second while the first is still running; each call renders the
    view's stored template if there is one and its own argument otherwise,
    since a render that passes the gate does not store its argument. *)
Theorem render_twice_invokes_twice w a v t1 t2 class :
  views w !! a = Some v →
  render_state v ≠ RENDER_CANCELED →
  (∀ k c, _child_views v !! k = Some c → c ≠ a ∧ complete_at (views w) c) →
  _renderers w !! registry_key (content_type v) = Some class →
  ∃ w', (render a t1 false >> render a t2 false) w = Ret tt w' ∧
        views w' = <[a := with_render_state RENDER_STARTED v]> (views w) ∧
        renderer_objs w' =
          renderer_objs w ++ [built_renderer class a; built_renderer class a] ∧
        invocations w' =
          invocations w ++
            [mkInvocation (length (renderer_objs w)) (Some a)
                          (js_add (dir v) (resolved_template v t1)) (views w');
             mkInvocation (S (length (renderer_objs w))) (Some a)
                          (js_add (dir v) (resolved_template v t2)) (views w')].
Proof.
  intros Ha Hst Hch Hreg.
  set (w1 := started_world w a v class t1).
  set (v1 := with_render_state RENDER_STARTED v).
  assert (Ha1 : views w1 !! a = Some v1) by (simpl; by eapply lookup_modified).
  exists (started_world w1 a v1 class t2). split; [|split; [|split]].
  - simpl. erewrite bind_Ret by (by apply render_unforced_open). cbv beta iota.
    fold w1. apply render_unforced_open; [done|done| |done].
    intros k c Hkc. destruct (Hch k c Hkc) as [Hne Hc]. split; [done|].
    by apply complete_at_insert_ne.
  - simpl. by rewrite list_insert_insert_eq.
  - simpl. by rewrite <- app_assoc.
  - simpl. rewrite <- app_assoc, !list_insert_insert_eq, length_app. simpl.
    by rewrite Nat.add_1_r.
Qed.

Lemma render_twice_invokes_twice_witness :
  ∃ w', (render 0 (Some "a.html") false >> render 0 (Some "b.html") false) leaf_world
        = Ret tt w' ∧
        (inv_path <$> invocations w') = [Some "tpl/a.html"; Some "tpl/b.html"].
Proof.
  destruct (render_twice_invokes_twice leaf_world 0
              (mkBifocals ∅ ∅ RENDER_NOT_CALLED None 0 html None (Some "tpl/")
                          (ServerResponse None ∅ [] 0) (user_handler 0))
              (Some "a.html") (Some "b.html") 7) as (w' & Hrun & _ & _ & Hinv);
    [vm_compute; reflexivity|done| |vm_compute; reflexivity|].
  { intros k c Hkc. cbn [_child_views] in Hkc. by rewrite lookup_empty in Hkc. }
  exists w'. split; [exact Hrun|]. rewrite Hinv. reflexivity.
Defined.

(** ** Handlers of a renderer *)

Lemma lookup_replaced (rs : list Renderer) r o o' :
  rs !! r = Some o → <[r := o']> rs !! r = Some o'.
Proof. intros H. apply list_lookup_insert_eq. by eapply lookup_lt_Some. Qed.

(** X10. A handler registered on a renderer before the signal is called by
    the signal itself, not through the [nextTick] queue, and only the handler
    registered last is called: after [error (fn1)] and [error (fn2)],
    [_error (err)] is the call [fn2 (err)] and [fn1] is never called; the
    same holds for [end (fn1)], [end (fn2)] and [_end ()]. *)
Theorem last_registered_handler_is_called w r o fn1 fn2 err :
  renderer_objs w !! r = Some o →
  r_error o = renderer_error →
  r_end o = renderer_end →
  (Renderer_error r fn1 >> Renderer_error r fn2 >> Renderer__error r err) w
    = call_callback fn2 (Some err)
        (with_renderer_objs (<[r := with_r__error (Some fn2) o]> (renderer_objs w)) w) ∧
  (Renderer_end r fn1 >> Renderer_end r fn2 >> Renderer__end r) w
    = call_callback fn2 None
        (with_renderer_objs (<[r := with_r__end (Some fn2) o]> (renderer_objs w)) w).
Proof.
  intros Hr He Hn. split.
  - assert (H1 : Renderer_error r fn1 w =
                 Ret tt (with_renderer_objs
                           (<[r := with_r__error (Some fn1) o]> (renderer_objs w)) w)).
    { unfold Renderer_error. erewrite bind_Ret by (by apply get_renderer_Ret).
      cbv beta iota. rewrite He. by apply modify_renderer_Ret. }
    mstep H1. set (w1 := with_renderer_objs _ w).
    assert (Hr1 : renderer_objs w1 !! r = Some (with_r__error (Some fn1) o))
      by (by eapply lookup_replaced).
    assert (H2 : Renderer_error r fn2 w1 =
                 Ret tt (with_renderer_objs
                           (<[r := with_r__error (Some fn2) o]> (renderer_objs w)) w)).
    { unfold Renderer_error. erewrite bind_Ret by (apply get_renderer_Ret; exact Hr1).
      cbv beta iota. simpl. rewrite He.
      erewrite modify_renderer_Ret by exact Hr1. subst w1. simpl.
      by rewrite list_insert_insert_eq. }
    mstep H2. unfold Renderer__error.
    erewrite bind_Ret by (apply get_renderer_Ret; simpl; by eapply lookup_replaced).
    done.
  - assert (H1 : Renderer_end r fn1 w =
                 Ret tt (with_renderer_objs
                           (<[r := with_r__end (Some fn1) o]> (renderer_objs w)) w)).
    { unfold Renderer_end. erewrite bind_Ret by (by apply get_renderer_Ret).
      cbv beta iota. rewrite Hn. by apply modify_renderer_Ret. }
    mstep H1. set (w1 := with_renderer_objs _ w).
    assert (Hr1 : renderer_objs w1 !! r = Some (with_r__end (Some fn1) o))
      by (by eapply lookup_replaced).
    assert (H2 : Renderer_end r fn2 w1 =
                 Ret tt (with_renderer_objs
                           (<[r := with_r__end (Some fn2) o]> (renderer_objs w)) w)).
    { unfold Renderer_end. erewrite bind_Ret by (apply get_renderer_Ret; exact Hr1).
      cbv beta iota. simpl. rewrite Hn.
      erewrite modify_renderer_Ret by exact Hr1. subst w1. simpl.
      by rewrite list_insert_insert_eq. }
    mstep H2. unfold Renderer__end.
    erewrite bind_Ret by (apply get_renderer_Ret; simpl; by eapply lookup_replaced).
    done.
Qed.

Lemma last_registered_handler_is_called_witness :
  calls (exec (Renderer_error 0 (external_fn 1) >>
               Renderer_error 0 (external_fn 2) >>
               Renderer__error 0 "boom") lone_renderer) = [(2, Some "boom")] ∧
  ticks (exec (Renderer_error 0 (external_fn 1) >>
               Renderer_error 0 (external_fn 2) >>
               Renderer__error 0 "boom") lone_renderer) = [].
Proof.
  destruct (last_registered_handler_is_called lone_renderer 0
              (mkRenderer 7 None renderer_error None renderer_end None)
              (external_fn 1) (external_fn 2) "boom") as [Herr _];
    [reflexivity|reflexivity|reflexivity|].
  unfold exec. rewrite Herr. split; reflexivity.
Defined.

(** X11. Errors that fire on a renderer of [part_000] before any handler is
    registered are not queued up: only the last one is kept.  After
    [_error (e1)] and [_error (e2)], [error (fn)] schedules the one call
    [fn (e2)] on the next tick, and [e1] is lost.  The handler itself is not
    stored: an [_error (e3)] that fires afterwards calls nothing and
    schedules nothing, it only replaces the pending error. *)
Theorem only_last_pending_error_is_kept w r o e1 e2 e3 fn :
  renderer_objs w !! r = Some o →
  r__error o = None →
  let pending e := with_renderer_objs
                     (<[r := with_r_error (pending_error e) o]> (renderer_objs w)) w in
  (Renderer__error r e1 >> Renderer__error r e2 >> Renderer_error r fn) w
    = Ret tt (with_ticks (ticks w ++ [call_fn fn (Some e2)]) (pending e2)) ∧
  (Renderer__error r e1 >> Renderer__error r e2 >> Renderer_error r fn >>
   Renderer__error r e3) w
    = Ret tt (with_ticks (ticks w ++ [call_fn fn (Some e2)]) (pending e3)).
Proof.
  intros Hr H_e pending.
  assert (Hfire : ∀ e w0 o0, renderer_objs w0 !! r = Some o0 → r__error o0 = None →
            Renderer__error r e w0 =
              Ret tt (with_renderer_objs
                        (<[r := with_r_error (pending_error e) o0]> (renderer_objs w0)) w0)).
  { intros e w0 o0 Hr0 H0. unfold Renderer__error.
    erewrite bind_Ret by (by apply get_renderer_Ret). cbv beta iota.
    rewrite H0. by apply modify_renderer_Ret. }
  assert (H12 : (Renderer__error r e1 >> Renderer__error r e2) w = Ret tt (pending e2)).
  { erewrite bind_Ret by (by apply Hfire). cbv beta iota.
    erewrite Hfire; [|simpl; by eapply lookup_replaced|done].
    unfold pending. simpl. by rewrite list_insert_insert_eq. }
  assert (Hp2 : renderer_objs (pending e2) !! r = Some (with_r_error (pending_error e2) o))
    by (simpl; by eapply lookup_replaced).
  assert (Hreg : Renderer_error r fn (pending e2) =
                 Ret tt (with_ticks (ticks w ++ [call_fn fn (Some e2)]) (pending e2))).
  { unfold Renderer_error. erewrite bind_Ret by (apply get_renderer_Ret; exact Hp2).
    done. }
  assert (H123 : (Renderer__error r e1 >> Renderer__error r e2 >> Renderer_error r fn) w
                 = Ret tt (with_ticks (ticks w ++ [call_fn fn (Some e2)]) (pending e2))).
  { unfold bind in H12 |- *. destruct (Renderer__error r e1 w) as [[] w1|]; [|done].
    destruct (Renderer__error r e2 w1) as [[] w2|]; [|done].
    injection H12 as ->. exact Hreg. }
  split; [exact H123|].
  assert (H1234 : ∀ k : M unit,
            (Renderer__error r e1 >> Renderer__error r e2 >> Renderer_error r fn >> k) w
            = k (with_ticks (ticks w ++ [call_fn fn (Some e2)]) (pending e2))).
  { intros k. unfold bind in H123 |- *.
    destruct (Renderer__error r e1 w) as [[] w1|]; [|done].
    destruct (Renderer__error r e2 w1) as [[] w2|]; [|done].
    by rewrite H123. }
  rewrite H1234. erewrite Hfire; [|simpl; exact Hp2|done].
  unfold pending. simpl. by rewrite list_insert_insert_eq.
Qed.

Lemma only_last_pending_error_is_kept_witness :
  ticks (exec (Renderer__error 0 "first" >> Renderer__error 0 "second" >>
               Renderer_error 0 (external_fn 9)) lone_renderer)
  = [call_fn (external_fn 9) (Some "second")].
Proof.
  destruct (only_last_pending_error_is_kept lone_renderer 0
              (mkRenderer 7 None renderer_error None renderer_end None)
              "first" "second" "third" (external_fn 9)) as [Hrun _];
    [reflexivity|reflexivity|].
  unfold exec. rewrite Hrun. reflexivity.
Defined.

(** ** Status helpers *)

Lemma inert_compose g1 g2 : inert g1 → inert g2 → inert (g2 ∘ g1).
Proof.
  intros (Hc1 & Hr1 & Hs1 & Hv1) (Hc2 & Hr2 & Hs2 & Hv2).
  repeat split; intros; simpl; congruence.
Qed.

Lemma inert_canceled g v : inert g → g (canceled v) = canceled (g v).
Proof. intros (_ & _ & Hs & Hv). unfold canceled. by rewrite Hv, Hs. Qed.

Lemma with_data_inert (f : gmap string value → gmap string value) :
  inert (λ v, with_data (f (_data v)) v).
Proof. done. Qed.

Lemma on_view_on_view r g1 g2 w :
  on_view r g2 (on_view r g1 w) = on_view r (g2 ∘ g1) w.
Proof. unfold on_view. simpl. by rewrite list_alter_alter_eq. Qed.

Lemma modify_view_as_on_view a f w v :
  views w !! a = Some v → modify_view a f w = Ret tt (on_view a f w).
Proof. intros Ha. by rewrite modify_view_alter, Ha. Qed.

Lemma edges_on_view r g w x v k c :
  inert g →
  views (on_view r g w) !! x = Some v → _child_views v !! k = Some c →
  ∃ v', views w !! x = Some v' ∧ _child_views v' !! k = Some c.
Proof.
  intros (Hch & _) Hx Hk. rewrite lookup_on_view in Hx.
  destruct (views w !! x) as [v0|]; [|done]. simpl in Hx. injection Hx as <-.
  exists v0. split; [done|]. destruct (decide (x = r)); [by rewrite Hch in Hk|done].
Qed.

Lemma edges_of_on_view r g w x v k c :
  inert g →
  views w !! x = Some v → _child_views v !! k = Some c →
  ∃ v', views (on_view r g w) !! x = Some v' ∧ _child_views v' !! k = Some c.
Proof.
  intros (Hch & _) Hx Hk. rewrite lookup_on_view, Hx. simpl.
  eexists. split; [done|]. destruct (decide (x = r)); [by rewrite Hch|done].
Qed.

Lemma wf_on_view r g w : inert g → wf_views (views w) → wf_views (views (on_view r g w)).
Proof.
  intros Hg Hwf x v k c Hx Hk.
  destruct (edges_on_view r g w x v k c Hg Hx Hk) as (v' & Hx' & Hk').
  simpl. rewrite length_alter. eauto.
Qed.

Lemma desc_on_view r g w x y :
  inert g → desc (views (on_view r g w)) x y ↔ desc (views w) x y.
Proof.
  intros Hg. split; apply desc_mono; intros a v k c.
  - by apply edges_on_view.
  - by apply edges_of_on_view.
Qed.

(** A second [cancelRender] on the same view changes nothing. *)
Lemma cancel_twice {A} w r (k : M A) :
  wf_views (views w) → r < length (views w) →
  (cancelRender r >> cancelRender r >> k) w = (cancelRender r >> k) w.
Proof.
  intros Hwf Hlt.
  destruct (cancelRender_Ret w r Hwf Hlt) as (vs' & Hrun & _ & _ & Hc).
  rewrite !(bind_Ret _ _ _ _ _ Hrun).
  erewrite bind_Ret; [done|]. apply cancelRender_canceled. apply Hc. constructor.
Qed.

(** [cancelRender] and [end ()] on a root that holds a real response, after
    changes [g] to the record of the root that touch neither its state nor
    its children. *)
Lemma finish_after w r vr g sc hs chunks ended :
  wf_views (views w) →
  views w !! r = Some vr →
  inert g →
  response (g (canceled vr)) = ServerResponse sc hs chunks ended →
  ends_response w r (with_response (ServerResponse sc hs chunks (S ended)) (g (canceled vr)))
                ((cancelRender r >> response_end r) (on_view r g w)).
Proof.
  intros Hwf Hr Hg Hresp. pose proof (lookup_lt_Some _ _ _ Hr) as Hlt.
  destruct (cancelRender_Ret w r Hwf Hlt) as (vs_c & Hrun & Hlen & Hm & Hc).
  assert (Hr_c : vs_c !! r = Some (canceled vr)).
  { destruct (Hm r) as [Heq|[_ (v0 & Hv0 & Hv1)]]; [|congruence].
    destruct (Hc r) as (v1 & Hv1 & Hcv1); [constructor|].
    rewrite Heq, Hr in Hv1. injection Hv1 as <-.
    by rewrite canceled_idemp, Heq. }
  set (x' := ServerResponse sc hs chunks (S ended)).
  set (wc := on_view r g (with_views vs_c w)).
  assert (Hcancel : cancelRender r (on_view r g w) = Ret tt wc).
  { rewrite cancelRender_on_view by done. by rewrite Hrun. }
  assert (Hr_wc : views wc !! r = Some (g (canceled vr))).
  { unfold wc. rewrite lookup_on_view. cbn [views with_views]. rewrite Hr_c.
    by destruct (decide (r = r)). }
  exists (<[r := with_response x' (g (canceled vr))]> (views wc)).
  split; [|split; [|split; [|split]]].
  - mstep Hcancel. unfold response_end. mget Hr_wc. rewrite Hresp.
    by erewrite modify_view_Ret by exact Hr_wc.
  - rewrite length_insert. unfold wc. simpl. by rewrite length_alter.
  - by eapply lookup_modified.
  - intros d Hd. destruct (decide (d = r)) as [->|Hne].
    + eexists. split; [by eapply lookup_modified|].
      rewrite (inert_canceled g vr Hg). done.
    + unfold canceled_at. rewrite list_lookup_insert_ne by done.
      unfold wc. simpl. rewrite list_lookup_alter_ne by done. by apply Hc.
  - intros d Hnd.
    assert (d ≠ r) by (intros ->; apply Hnd; constructor).
    rewrite list_lookup_insert_ne by done.
    unfold wc. simpl. rewrite list_lookup_alter_ne by done.
    by destruct (Hm d) as [?|[? _]].
Qed.

Lemma after_on_view w a va r g :
  inert g → views w !! a = Some va → root va = r →
  ∃ va', views (on_view r g w) !! a = Some va' ∧ root va' = r.
Proof.
  intros (_ & Hroot & _) Ha Hr. rewrite lookup_on_view, Ha. simpl.
  eexists. split; [done|]. destruct (decide (a = r)); [by rewrite Hroot|done].
Qed.

Lemma status_tail w a va vr g sc hs chunks ended :
  wf_views (views w) →
  views w !! a = Some va →
  views w !! root va = Some vr →
  inert g →
  response (g (canceled vr)) = ServerResponse sc hs chunks ended →
  let root' := with_response (ServerResponse sc hs chunks (S ended)) (g (canceled vr)) in
  ends_response w (root va) root'
    ((let! this := get_view a in
      cancelRender (root this) >> response_end (root this)) (on_view (root va) g w)) ∧
  ends_response w (root va) root'
    ((let! this := get_view a in
      cancelRender (root this) >>
      cancelRender (root this) >> response_end (root this)) (on_view (root va) g w)).
Proof.
  intros Hwf Ha Hr Hg Hresp root'.
  destruct (after_on_view w a va (root va) g Hg Ha eq_refl) as (va' & Ha' & Hroot').
  pose proof (finish_after w (root va) vr g sc hs chunks ended Hwf Hr Hg Hresp) as Hfin.
  split.
  - mget Ha'. by rewrite Hroot'.
  - mget Ha'. rewrite Hroot'. rewrite cancel_twice; [done|by apply wf_on_view|].
    simpl. rewrite length_alter. by eapply lookup_lt_Some.
Qed.

(** X12. The status helpers of [part_000] called without a template, on any
    view of a well-formed arena whose root holds a real response.  Each one
    returns; the response of the root then carries the helper's status code
    (404, 500, 201, 302, 304, 405, 401), the header the helper sets
    ([Location] for 201 and 302, [Allow] with the methods joined by commas
    for 405) and has been ended exactly once more; [statusError] has also
    stored the error under "error" in the root's data.  The root and every
    view below it are canceled with empty children maps; views outside the
    tree, the queue and the renderers are untouched, and no renderer is
    called. *)
Theorem status_helpers_end_response w a va vr sc hs chunks ended :
  wf_views (views w) →
  views w !! a = Some va →
  views w !! root va = Some vr →
  response vr = ServerResponse sc hs chunks ended →
  let sent code hs' data' :=
    ends_response w (root va) (ended_root vr code hs' chunks ended data') in
  sent 404 hs (_data vr) (statusNotFound a None w) ∧
  (∀ err, sent 500 hs (<["error" := err]> (_data vr)) (statusError a err None w)) ∧
  (∀ url, sent 201 (<["Location" := url]> hs) (_data vr) (statusCreated a url w)) ∧
  (∀ url, sent 302 (<["Location" := url]> hs) (_data vr) (statusRedirect a url w)) ∧
  sent 304 hs (_data vr) (statusNotModified a w) ∧
  (∀ methods, sent 405 (<["Allow" := String.concat "," methods]> hs) (_data vr)
                   (statusUnsupportedMethod a methods w)) ∧
  sent 401 hs (_data vr) (statusUnauthorized a None w).
Proof.
  intros Hwf Ha Hr Hresp sent. subst sent. cbv beta.
  set (r := root va) in *.
  assert (Hcode : ∀ code, setStatusCode a code w =
            Ret tt (on_view r (with_response (ServerResponse (Some code) hs chunks ended)) w))
    by (intros code; by eapply setStatusCode_Ret).
  assert (Hplain : ∀ code,
            ended_root vr code hs chunks ended (_data vr) =
            with_response (ServerResponse (Some code) hs chunks (S ended))
              (with_response (ServerResponse (Some code) hs chunks ended) (canceled vr)))
    by (intros code; by destruct vr).
  assert (Hheader : ∀ code name val (tail : M unit),
            ends_response w r (ended_root vr code (<[name := val]> hs) chunks ended (_data vr))
              ((let! this := get_view a in
                cancelRender (root this) >> response_end (root this))
                 (on_view r (with_response
                               (ServerResponse (Some code) (<[name := val]> hs) chunks ended)) w)) ∧
            (setStatusCode a code >> setHeaders a [(name, val)] >> tail) w =
              tail (on_view r (with_response
                                 (ServerResponse (Some code) (<[name := val]> hs) chunks ended)) w)).
  { intros code name val tail. split.
    - replace (ended_root vr code (<[name := val]> hs) chunks ended (_data vr))
        with (with_response (ServerResponse (Some code) (<[name := val]> hs) chunks (S ended))
                (with_response (ServerResponse (Some code) (<[name := val]> hs) chunks ended)
                               (canceled vr)))
        by (by destruct vr).
      by apply (status_tail w a va vr (with_response _)).
    - mstep (Hcode code).
      destruct (on_view_response w a va r vr (ServerResponse (Some code) hs chunks ended)
                  Ha eq_refl Hr) as (va1 & Ha1 & Hroot1 & Hr1).
      erewrite bind_Ret
        by (eapply (setHeaders_one_Ret _ a va1); [done|by rewrite Hroot1|done]).
      cbv beta iota. rewrite Hroot1, on_view_on_view. reflexivity. }
  split; [|split; [|split; [|split; [|split; [|split]]]]].
  - unfold statusNotFound. mstep (Hcode 404). rewrite Hplain.
    by apply (status_tail w a va vr (with_response _)).
  - intros err. unfold statusError. mstep (Hcode 500).
    set (x1 := ServerResponse (Some 500) hs chunks ended).
    set (h := λ v, with_data (<["error" := err]> (_data v)) v).
    destruct (on_view_response w a va r vr x1 Ha eq_refl Hr) as (va1 & Ha1 & Hroot1 & Hr1).
    mget Ha1. rewrite Hroot1. unfold set. fold h.
    erewrite bind_Ret by (by eapply modify_view_as_on_view). cbv beta iota.
    rewrite on_view_on_view.
    replace (ended_root vr 500 hs chunks ended (<["error" := err]> (_data vr)))
      with (with_response (ServerResponse (Some 500) hs chunks (S ended))
              ((h ∘ with_response x1) (canceled vr)))
      by (by destruct vr).
    apply finish_after; [done|done| |done].
    apply inert_compose; [done|]. apply (with_data_inert (λ d, <["error" := err]> d)).
  - intros url. unfold statusCreated.
    destruct (Hheader 201 "Location" url
                (let! this := get_view a in
                 cancelRender (root this) >> response_end (root this))) as [Hends ->].
    exact Hends.
  - intros url. unfold statusRedirect.
    destruct (Hheader 302 "Location" url
                (let! this := get_view a in
                 cancelRender (root this) >> response_end (root this))) as [Hends ->].
    exact Hends.
  - unfold statusNotModified. mstep (Hcode 304). rewrite Hplain.
    by apply (status_tail w a va vr (with_response _)).
  - intros methods. unfold statusUnsupportedMethod.
    destruct (Hheader 405 "Allow" (String.concat "," methods)
                (let! this := get_view a in
                 cancelRender (root this) >> response_end (root this))) as [Hends ->].
    exact Hends.
  - unfold statusUnauthorized. mstep (Hcode 401). rewrite Hplain.
    by apply (status_tail w a va vr (with_response _)).
Qed.

Lemma status_helpers_end_response_witness :
  ends_response page_world 0
    (ended_root (mkBifocals {["header" := 1; "body" := 2]} ∅ RENDER_NOT_CALLED None 0 html
                            None (Some "tpl/") (ServerResponse None ∅ [] 0) (user_handler 0))
                201 (<["Location" := "/users/1"]> ∅) [] 0 ∅)
    (statusCreated 3 "/users/1" page_world).
Proof.
  destruct (status_helpers_end_response page_world 3
              (mkBifocals ∅ ∅ RENDER_NOT_CALLED (Some 1) 0 html None (Some "tpl/")
                          (FakeResponse "" "nav" None) (user_handler 0))
              (mkBifocals {["header" := 1; "body" := 2]} ∅ RENDER_NOT_CALLED None 0 html
                          None (Some "tpl/") (ServerResponse None ∅ [] 0) (user_handler 0))
              None ∅ [] 0) as (_ & _ & Hcreated & _);
    [apply wf_viewsb_spec; vm_compute; reflexivity
    |vm_compute; reflexivity|vm_compute; reflexivity|reflexivity|].
  apply Hcreated.
Defined.

(** [render (template, true)], in full. *)
Lemma render_forced_Ret w a v tmpl class :
  wf_views (views w) →
  views w !! a = Some v →
  _renderers w !! registry_key (content_type v) = Some class →
  let v2 := with_template tmpl (with_render_state RENDER_REQUESTED (canceled v)) in
  ∃ vs_c, cancel_post (views w) a vs_c ∧
          vs_c !! a = Some (canceled v) ∧
          render a tmpl true w =
            Ret tt (started_world (with_views (<[a := v2]> vs_c) w) a v2 class tmpl).
Proof.
  intros Hwf Ha Hreg v2.
  pose proof (lookup_lt_Some _ _ _ Ha) as Hlt.
  destruct (cancelRender_Ret w a Hwf Hlt) as (vs1 & Hrun & Hpost).
  pose proof Hpost as (Hlen & Hm & Hc).
  assert (Ha1 : vs1 !! a = Some (canceled v)).
  { destruct (Hm a) as [Heq|[_ (v0 & Hv0 & Hv1)]]; [|congruence].
    destruct (Hc a) as (v1 & Hv1 & Hcv1); [constructor|].
    rewrite Heq, Ha in Hv1. injection Hv1 as <-.
    by rewrite canceled_idemp, Heq. }
  exists vs1. split; [done|]. split; [done|].
  unfold render. simpl. mstep Hrun.
  erewrite bind_Ret by (apply modify_view_Ret; exact Ha1). cbv beta iota.
  erewrite bind_Ret by (apply modify_view_Ret; simpl; by eapply lookup_modified).
  cbv beta iota. simpl. rewrite list_insert_insert_eq. fold v2.
  apply render_unforced_open; simpl; [by eapply lookup_modified|done| |done].
  intros k c Hkc. by rewrite lookup_empty in Hkc.
Qed.

(** A forced render of the root, after changes [g] to its record that touch
    neither its state, its children, its content type nor its directory. *)
Lemma force_after w r vr g class t :
  wf_views (views w) →
  views w !! r = Some vr →
  inert g →
  (∀ v, content_type (g v) = content_type v) →
  (∀ v, dir (g v) = dir v) →
  _renderers w !! registry_key (content_type vr) = Some class →
  renders_root w r vr
    (with_render_state RENDER_STARTED (with_template (Some t) (g (canceled vr))))
    class t
    (render r (Some t) true (on_view r g w)).
Proof.
  intros Hwf Hr Hg Hct Hdir Hreg.
  set (W := on_view r g w).
  assert (HrW : views W !! r = Some (g vr)).
  { unfold W. rewrite lookup_on_view, Hr. simpl. by destruct (decide (r = r)). }
  destruct (render_forced_Ret W r (g vr) (Some t) class) as (vs_c & Hpost & Hr_c & Hrun).
  { by apply wf_on_view. }
  { done. }
  { by rewrite Hct. }
  destruct Hpost as (Hlen & Hm & Hc).
  set (v2 := with_template (Some t) (with_render_state RENDER_REQUESTED (canceled (g vr)))) in *.
  eexists. split; [exact Hrun|].
  assert (HlenW : length (views W) = length (views w)) by (simpl; apply length_alter).
  assert (Hr2 : <[r := v2]> vs_c !! r = Some v2) by (by eapply lookup_modified).
  split; [|split; [|split; [|split; [|split; [|split]]]]].
  - simpl. rewrite !length_insert. congruence.
  - simpl. rewrite (lookup_modified _ _ _ _ Hr2).
    by rewrite (inert_canceled g vr Hg).
  - intros d Hd Hne. simpl. unfold canceled_at.
    rewrite !list_lookup_insert_ne by done. apply Hc. by apply desc_on_view.
  - intros d Hnd.
    assert (d ≠ r) by (intros ->; apply Hnd; constructor).
    simpl. rewrite !list_lookup_insert_ne by done.
    destruct (Hm d) as [Heq|[Hd _]].
    + rewrite Heq. unfold W. simpl. by rewrite list_lookup_alter_ne.
    + exfalso. apply Hnd. by apply (desc_on_view r g w).
  - done.
  - simpl. unfold resolved_template. simpl. rewrite Hdir.
    by destruct (bool_decide (t ≠ "")).
  - done.
Qed.

(** X13. [statusNotFound], [statusError] and [statusUnauthorized] of
    [part_000] called with a template string, on any view of a well-formed
    arena whose root holds a real response and has a renderer registered for
    its content type.  The status code (404, 500, 401) is set on the root's
    response, which is not ended; every view below the root is canceled; the
    root ends in state [RENDER_STARTED] with the template stored and an
    empty children map, and one renderer is built for it and called once
    with the root's directory followed by the template.  [statusError] has
    also stored the error under "error" in the root's data. *)
Theorem status_helpers_render_template w a va vr sc hs chunks ended class t :
  wf_views (views w) →
  views w !! a = Some va →
  views w !! root va = Some vr →
  response vr = ServerResponse sc hs chunks ended →
  _renderers w !! registry_key (content_type vr) = Some class →
  let rendered code data' :=
    renders_root w (root va) vr (rendering_root vr code hs chunks ended data' t) class t in
  rendered 404 (_data vr) (statusNotFound a (Some t) w) ∧
  (∀ err, rendered 500 (<["error" := err]> (_data vr)) (statusError a err (Some t) w)) ∧
  rendered 401 (_data vr) (statusUnauthorized a (Some t) w).
Proof.
  intros Hwf Ha Hr Hresp Hreg rendered. subst rendered. cbv beta.
  set (r := root va) in *.
  assert (Hcode : ∀ code, setStatusCode a code w =
            Ret tt (on_view r (with_response (ServerResponse (Some code) hs chunks ended)) w))
    by (intros code; by eapply setStatusCode_Ret).
  assert (Hplain : ∀ code,
            renders_root w r vr (rendering_root vr code hs chunks ended (_data vr) t) class t
              ((let! this := get_view a in
                cancelRender (root this) >> render (root this) (Some t) true)
                 (on_view r (with_response (ServerResponse (Some code) hs chunks ended)) w))).
  { intros code. set (x1 := ServerResponse (Some code) hs chunks ended).
    destruct (after_on_view w a va r (with_response x1)) as (va1 & Ha1 & Hroot1);
      [done..|].
    mget Ha1. rewrite Hroot1. unfold render at 1. cbn [negb].
    rewrite cancel_twice;
      [|by apply wf_on_view|simpl; rewrite length_alter; by eapply lookup_lt_Some].
    replace (rendering_root vr code hs chunks ended (_data vr) t)
      with (with_render_state RENDER_STARTED
              (with_template (Some t) (with_response x1 (canceled vr))))
      by (by destruct vr).
    by apply (force_after w r vr (with_response x1)). }
  split; [|split].
  - unfold statusNotFound. mstep (Hcode 404). apply Hplain.
  - intros err. unfold statusError. mstep (Hcode 500).
    set (x1 := ServerResponse (Some 500) hs chunks ended).
    set (h := λ v, with_data (<["error" := err]> (_data v)) v).
    destruct (after_on_view w a va r (with_response x1)) as (va1 & Ha1 & Hroot1);
      [done..|].
    assert (Hr1 : views (on_view r (with_response x1) w) !! r = Some (with_response x1 vr)).
    { rewrite lookup_on_view, Hr. simpl. by destruct (decide (r = r)). }
    mget Ha1. rewrite Hroot1. unfold set. fold h.
    erewrite bind_Ret by (by eapply modify_view_as_on_view). cbv beta iota.
    rewrite on_view_on_view.
    replace (rendering_root vr 500 hs chunks ended (<["error" := err]> (_data vr)) t)
      with (with_render_state RENDER_STARTED
              (with_template (Some t) ((h ∘ with_response x1) (canceled vr))))
      by (by destruct vr).
    apply force_after; [done|done| |done|done|done].
    apply inert_compose; [done|]. apply (with_data_inert (λ d, <["error" := err]> d)).
  - unfold statusUnauthorized. mstep (Hcode 401). apply Hplain.
Qed.

Lemma status_helpers_render_template_witness :
  ∃ w', statusNotFound 3 (Some "404.html") page_world = Ret tt w' ∧
        (inv_path <$> invocations w') = [Some "tpl/404.html"] ∧
        (response <$> views w' !! 0) = Some (ServerResponse (Some 404) ∅ [] 0).
Proof.
  destruct (status_helpers_render_template page_world 3
              (mkBifocals ∅ ∅ RENDER_NOT_CALLED (Some 1) 0 html None (Some "tpl/")
                          (FakeResponse "" "nav" None) (user_handler 0))
              (mkBifocals {["header" := 1; "body" := 2]} ∅ RENDER_NOT_CALLED None 0 html
                          None (Some "tpl/") (ServerResponse None ∅ [] 0) (user_handler 0))
              None ∅ [] 0 7 "404.html") as (Hnf & _);
    [apply wf_viewsb_spec; vm_compute; reflexivity
    |vm_compute; reflexivity|vm_compute; reflexivity|reflexivity
    |vm_compute; reflexivity|].
  destruct Hnf as (w' & Hrun & _ & Hroot & _ & _ & _ & Hinv & _).
  exists w'. split; [exact Hrun|]. split.
  - rewrite Hinv. reflexivity.
  - cbn [root] in Hroot. rewrite Hroot. reflexivity.
Defined.

(** X14. On a view whose root has no response assigned, every status helper
    of [part_000] throws a [TypeError] at its first statement, the
    assignment of the status code: nothing has been canceled, stored or
    rendered by then, and the world is as it was. *)
Theorem status_without_response_throws w a va vr st :
  views w !! a = Some va →
  views w !! root va = Some vr →
  response vr = NoResponse →
  run_status a st w = Throw TypeError w.
Proof.
  intros Ha Hr Hresp.
  assert (Hcode : ∀ code, setStatusCode a code w = Throw TypeError w).
  { intros code. unfold setStatusCode. mget Ha. unfold assign_statusCode.
    mget Hr. by rewrite Hresp. }
  destruct st; simpl;
    [unfold statusNotFound|unfold statusError|unfold statusCreated
    |unfold statusRedirect|unfold statusNotModified|unfold statusUnsupportedMethod
    |unfold statusUnauthorized];
    by erewrite bind_Throw by apply Hcode.
Qed.

Lemma status_without_response_throws_witness :
  run_status 0 (st_Redirect "/login") (exec new_Bifocals empty_world)
  = Throw TypeError (exec new_Bifocals empty_world).
Proof.
  apply (status_without_response_throws _ 0
           (mkBifocals ∅ ∅ RENDER_NOT_CALLED None 0 None None None NoResponse
                       bifocals_defaultError)
           (mkBifocals ∅ ∅ RENDER_NOT_CALLED None 0 None None None NoResponse
                       bifocals_defaultError));
    reflexivity.
Defined.

(** X15. [statusNotModified] of [part_001] never ends the response.  On any
    view of a well-formed arena whose root holds a real response it cancels
    the tree below the root, sets the status code 304, and then throws a
    [TypeError]: its last statement reads the property [response] of the
    root, which that revision keeps in [_response]. *)
Theorem Rev1_statusNotModified_never_ends w a va vr sc hs chunks ended :
  wf_views (views w) →
  views w !! a = Some va →
  views w !! root va = Some vr →
  response vr = ServerResponse sc hs chunks ended →
  ∃ vs', Rev1.statusNotModified a w = Throw TypeError (with_views vs' w) ∧
         vs' !! root va =
           Some (with_response (ServerResponse (Some 304) hs chunks ended) (canceled vr)) ∧
         (∀ d, desc (views w) (root va) d → canceled_at vs' d) ∧
         (∀ d, ¬ desc (views w) (root va) d → vs' !! d = views w !! d).
Proof.
  intros Hwf Ha Hr Hresp. set (r := root va) in *.
  pose proof (lookup_lt_Some _ _ _ Hr) as Hlt.
  destruct (cancelRender_Ret w r Hwf Hlt) as (vs_c & Hrun & Hlen & Hm & Hc).
  assert (Hr_c : vs_c !! r = Some (canceled vr)).
  { destruct (Hm r) as [Heq|[_ (v0 & Hv0 & Hv1)]]; [|congruence].
    destruct (Hc r) as (v1 & Hv1 & Hcv1); [constructor|].
    rewrite Heq, Hr in Hv1. injection Hv1 as <-.
    by rewrite canceled_idemp, Heq. }
  set (x1 := ServerResponse (Some 304) hs chunks ended).
  exists (<[r := with_response x1 (canceled vr)]> vs_c). split; [|split; [|split]].
  - unfold Rev1.statusNotModified. mget Ha. fold r.
    rewrite (bind_Ret _ _ _ _ _ (eq_trans (Rev1_cancelRender r w) Hrun)).
    unfold assign_statusCode.
    erewrite bind_Ret; [reflexivity|].
    erewrite bind_Ret by (apply get_view_Ret; exact Hr_c). cbv beta iota.
    cbn [response canceled with_child_views with_render_state]. rewrite Hresp.
    by erewrite modify_view_Ret by exact Hr_c.
  - by eapply lookup_modified.
  - intros d Hd. destruct (decide (d = r)) as [->|Hne].
    + eexists. split; [by eapply lookup_modified|done].
    + unfold canceled_at. rewrite list_lookup_insert_ne by done. by apply Hc.
  - intros d Hnd.
    assert (d ≠ r) by (intros ->; apply Hnd; constructor).
    rewrite list_lookup_insert_ne by done.
    by destruct (Hm d) as [?|[? _]].
Qed.

Lemma Rev1_statusNotModified_never_ends_witness :
  ∃ vs', Rev1.statusNotModified 1 page_world = Throw TypeError (with_views vs' page_world) ∧
         (response <$> vs' !! 0) = Some (ServerResponse (Some 304) ∅ [] 0).
Proof.
  destruct (Rev1_statusNotModified_never_ends page_world 1
              (mkBifocals {["nav" := 3]} ∅ RENDER_NOT_CALLED (Some 0) 0 html
                          (Some "head.html") (Some "tpl/")
                          (FakeResponse "" "header" None) (user_handler 0))
              (mkBifocals {["header" := 1; "body" := 2]} ∅ RENDER_NOT_CALLED None 0 html
                          None (Some "tpl/") (ServerResponse None ∅ [] 0) (user_handler 0))
              None ∅ [] 0) as (vs' & Hrun & Hroot & _);
    [apply wf_viewsb_spec; vm_compute; reflexivity
    |vm_compute; reflexivity|vm_compute; reflexivity|reflexivity|].
  exists vs'. split; [exact Hrun|]. cbn [root] in Hroot. rewrite Hroot. reflexivity.
Defined.

Lemma on_view_same_response w r vr :
  views w !! r = Some vr → on_view r (with_response (response vr)) w = w.
Proof.
  intros Hr. unfold on_view.
  rewrite <- (insert_as_alter _ _ _ _ Hr), with_response_same, list_insert_id by done.
  apply with_views_id.
Qed.

Lemma setHeaders_Ret headers w a va vr sc hs chunks ended :
  views w !! a = Some va →
  views w !! root va = Some vr →
  response vr = ServerResponse sc hs chunks ended →
  setHeaders a headers w =
    Ret tt (on_view (root va)
              (with_response
                 (ServerResponse sc (foldl (λ h kv, <[kv.1 := kv.2]> h) hs headers)
                                 chunks ended)) w).
Proof.
  revert w va vr hs.
  induction headers as [|[name val] headers IH]; intros w va vr hs Ha Hr Hresp.
  - simpl. unfold ret. by rewrite <- Hresp, on_view_same_response.
  - set (x1 := ServerResponse sc (<[name := val]> hs) chunks ended).
    assert (Hone : (let! this := get_view a in
                    response_setHeader (root this) name val) w
                   = Ret tt (on_view (root va) (with_response x1) w)).
    { mget Ha. by eapply response_setHeader_Ret. }
    unfold setHeaders. cbn [for_each fst snd]. mstep Hone.
    change (for_each headers _) with (setHeaders a headers).
    destruct (on_view_response w a va (root va) vr x1 Ha eq_refl Hr)
      as (va1 & Ha1 & Hroot1 & Hr1).
    erewrite (IH _ va1); [|exact Ha1|rewrite Hroot1; exact Hr1|reflexivity].
    rewrite Hroot1, on_view_on_view. reflexivity.
Qed.

(** X16. [setStatusCode] and [setHeaders] called on any view act on the
    response of the view's root, not on the view's own response.  When the
    root holds a real response, the code replaces the status code, the
    headers are set one by one, what was written and the number of [end]
    calls stay as they are, and nothing else in the world changes. *)
Theorem status_and_headers_reach_root w a va vr code headers sc hs chunks ended :
  views w !! a = Some va →
  views w !! root va = Some vr →
  response vr = ServerResponse sc hs chunks ended →
  (setStatusCode a code >> setHeaders a headers) w =
    Ret tt (on_view (root va)
              (with_response
                 (ServerResponse (Some code)
                                 (foldl (λ h kv, <[kv.1 := kv.2]> h) hs headers)
                                 chunks ended)) w).
Proof.
  intros Ha Hr Hresp.
  erewrite bind_Ret by (by eapply setStatusCode_Ret). cbv beta iota.
  set (x1 := ServerResponse (Some code) hs chunks ended).
  destruct (on_view_response w a va (root va) vr x1 Ha eq_refl Hr)
    as (va1 & Ha1 & Hroot1 & Hr1).
  erewrite (setHeaders_Ret headers _ a va1); [|exact Ha1|rewrite Hroot1; exact Hr1|reflexivity].
  rewrite Hroot1, on_view_on_view. reflexivity.
Qed.

Lemma status_and_headers_reach_root_witness :
  (response <$> views (exec (setStatusCode 3 200 >>
                             setHeaders 3 [("Vary", "Accept"); ("ETag", "33a64df5")])
                            page_world) !! 0)
  = Some (ServerResponse (Some 200)
                         (<["ETag" := "33a64df5"]> (<["Vary" := "Accept"]> ∅)) [] 0).
Proof.
  unfold exec.
  rewrite (status_and_headers_reach_root page_world 3
             (mkBifocals ∅ ∅ RENDER_NOT_CALLED (Some 1) 0 html None (Some "tpl/")
                         (FakeResponse "" "nav" None) (user_handler 0))
             (mkBifocals {["header" := 1; "body" := 2]} ∅ RENDER_NOT_CALLED None 0 html
                         None (Some "tpl/") (ServerResponse None ∅ [] 0) (user_handler 0))
             200 [("Vary", "Accept"); ("ETag", "33a64df5")] None ∅ [] 0);
    vm_compute; reflexivity.
Defined.

(** ** What the operations leave in place *)

Section keeps.
Context (R : relation Bifocals) `{!Reflexive R, !Transitive R}.
Context (Hstate : ∀ s v, R v (with_render_state s v)).
Context (Hnone : ∀ v, R v (with_child_views ∅ v)).
Context (Htemplate : ∀ t v, R v (with_template t v)).
Context (Hdata : ∀ d v, R v (with_data d v)).
Context (Hresponse : ∀ x v, R v (with_response x v)).

Lemma keeps_views {A} (m : M A) :
  (∀ w, views (world_of (m w)) = views w) → keeps R m.
Proof using Type*. intros Hv w. rewrite Hv. split; [done|]. intros a v Ha. by exists v. Qed.

Lemma keeps_ret {A} (a : A) : keeps R (ret a).
Proof using Type*. by apply keeps_views. Qed.

Lemma keeps_throw {A} e : keeps R (@throw A e).
Proof using Type*. by apply keeps_views. Qed.

Lemma keeps_bind {A B} (m : M A) (k : A → M B) :
  keeps R m → (∀ a, keeps R (k a)) → keeps R (bind m k).
Proof using Type*.
  intros Hm Hk w. destruct (Hm w) as [Hlen Hv]. unfold bind.
  destruct (m w) as [a w1|e w1]; simpl in *; [|done].
  destruct (Hk a w1) as [Hlen1 Hv1]. split; [congruence|].
  intros x v Hx. destruct (Hv x v Hx) as (v1 & Hx1 & HR1).
  destruct (Hv1 x v1 Hx1) as (v2 & Hx2 & HR2).
  exists v2. split; [done|]. by transitivity v1.
Qed.

Lemma keeps_for_each {A} (l : list A) (body : A → M unit) :
  (∀ x, keeps R (body x)) → keeps R (for_each l body).
Proof using Type*.
  intros Hb. induction l as [|x l IH]; simpl; [apply keeps_ret|].
  by apply keeps_bind.
Qed.

Lemma keeps_get_view a : keeps R (get_view a).
Proof using Type*.
  apply keeps_views. intros w. unfold get_view. by destruct (views w !! a).
Qed.

Lemma keeps_modify_view a f : (∀ v, R v (f v)) → keeps R (modify_view a f).
Proof using Type*.
  intros Hf w. unfold modify_view.
  destruct (views w !! a) as [v|] eqn:Ha; simpl.
  - rewrite length_insert. split; [done|]. intros x vx Hx.
    destruct (decide (x = a)) as [->|Hne].
    + exists (f v). rewrite (lookup_modified _ _ _ _ Ha).
      replace vx with v by congruence. done.
    + exists vx. by rewrite list_lookup_insert_ne.
  - split; [done|]. intros x vx Hx. by exists vx.
Qed.

Lemma keeps_canRender a : keeps R (canRender a).
Proof using Type*. apply keeps_views. intros w. by rewrite canRender_keeps_world. Qed.

Lemma keeps_cancelRender_fuel f a : keeps R (cancelRender_fuel f a).
Proof using Type*.
  revert a. induction f as [|f IH]; intros a; simpl; [apply keeps_throw|].
  apply keeps_bind; [apply keeps_get_view|]. intros v.
  apply keeps_bind; [by apply keeps_modify_view|]. intros _.
  apply keeps_bind; [apply keeps_for_each; intros kc; apply IH|]. intros _.
  by apply keeps_modify_view.
Qed.

Lemma keeps_cancelRender a : keeps R (cancelRender a).
Proof using Type*. intros w. apply keeps_cancelRender_fuel. Qed.

Lemma keeps_get_renderer r : keeps R (get_renderer r).
Proof using Type*.
  apply keeps_views. intros w. unfold get_renderer.
  by destruct (renderer_objs w !! r).
Qed.

Lemma keeps_modify_renderer r f : keeps R (modify_renderer r f).
Proof using Type*.
  apply keeps_views. intros w. unfold modify_renderer.
  by destruct (renderer_objs w !! r).
Qed.

Lemma keeps_buildRenderer a : keeps R (buildRenderer a).
Proof using Type*.
  apply keeps_bind; [apply keeps_get_view|]. intros v.
  apply keeps_bind.
  { apply keeps_views. intros w. unfold getRenderer.
    by destruct (_renderers w !! _). }
  intros class. apply keeps_bind; [by apply keeps_views|]. intros r.
  apply keeps_bind.
  { apply keeps_bind; [apply keeps_get_renderer|]. intros o.
    destruct (r_error o); [apply keeps_modify_renderer|by apply keeps_views]. }
  intros _. apply keeps_bind; [|intros _; apply keeps_ret].
  apply keeps_bind; [apply keeps_get_renderer|]. intros o.
  destruct (r_end o); [apply keeps_modify_renderer|by apply keeps_views].
Qed.

Lemma keeps_render_unforced a tmpl : keeps R (render_unforced a tmpl).
Proof using Type*.
  apply keeps_bind; [apply keeps_get_view|]. intros v.
  case_bool_decide; [apply keeps_ret|].
  apply keeps_bind; [by apply keeps_modify_view|]. intros _.
  apply keeps_bind; [apply keeps_canRender|]. intros [].
  - apply keeps_bind; [by apply keeps_modify_view|]. intros _.
    apply keeps_bind; [apply keeps_get_view|]. intros v'.
    apply keeps_bind; [apply keeps_buildRenderer|]. intros r.
    apply keeps_bind; [apply keeps_get_renderer|]. intros o.
    by apply keeps_views.
  - apply keeps_bind; [apply keeps_get_view|]. intros v'.
    destruct (truthy (template v')); [apply keeps_ret|by apply keeps_modify_view].
Qed.

Lemma keeps_render a tmpl force : keeps R (render a tmpl force).
Proof using Type*.
  unfold render. destruct force; simpl; [|apply keeps_render_unforced].
  apply keeps_bind; [apply keeps_cancelRender|]. intros _.
  apply keeps_bind; [by apply keeps_modify_view|]. intros _.
  apply keeps_bind; [by apply keeps_modify_view|]. intros _.
  apply keeps_render_unforced.
Qed.

Lemma keeps_call_callback fn arg : keeps R (call_callback fn arg).
Proof using Type*.
  destruct fn as [a|a|id]; simpl.
  - apply keeps_bind; [by apply keeps_modify_view|]. intros _.
    apply keeps_bind; [apply keeps_get_view|]. intros v.
    destruct (_error v); [apply keeps_throw|by apply keeps_views].
  - by apply keeps_modify_view.
  - by apply keeps_views.
Qed.

Lemma keeps_set a key val : keeps R (set a key val).
Proof using Type*. apply keeps_modify_view. intros v. apply Hdata. Qed.

Lemma keeps_response_end a : keeps R (response_end a).
Proof using Type*.
  apply keeps_bind; [apply keeps_get_view|]. intros v.
  destruct (response v); [apply keeps_throw| |by apply keeps_modify_view].
  apply keeps_bind; [by apply keeps_modify_view|]. intros _.
  apply keeps_bind; [apply keeps_get_view|]. intros v'.
  destruct (parent v'); [|apply keeps_throw].
  apply keeps_bind; [apply keeps_set|]. intros _.
  apply keeps_bind; [apply keeps_canRender|].
  intros []; [by apply keeps_views|apply keeps_ret].
Qed.

Lemma keeps_response_write a chunk : keeps R (response_write a chunk).
Proof using Type*.
  apply keeps_bind; [apply keeps_get_view|]. intros v.
  destruct (response v); [apply keeps_throw|by apply keeps_modify_view..].
Qed.

Lemma keeps_run_task t : keeps R (run_task t).
Proof using Type*.
  destruct t as [c|fn arg]; simpl.
  - apply keeps_bind; [apply keeps_get_view|]. intros v.
    destruct (parent v); [apply keeps_render|apply keeps_throw].
  - apply keeps_call_callback.
Qed.

Lemma keeps_tick : keeps R tick.
Proof using Type*.
  intros w. unfold tick. destruct (ticks w) as [|t ts].
  - split; [done|]. intros a v Ha. by exists v.
  - apply (keeps_run_task t (with_ticks ts w)).
Qed.

Lemma keeps_run_op o : keeps R (run_op o).
Proof using Type*.
  destruct o as [a tmpl force|a|r|r err|a|]; simpl.
  - apply keeps_render.
  - apply keeps_cancelRender.
  - apply keeps_bind; [apply keeps_get_renderer|]. intros o.
    destruct (r__end o); [apply keeps_call_callback|apply keeps_modify_renderer].
  - apply keeps_bind; [apply keeps_get_renderer|]. intros o.
    destruct (r__error o); [apply keeps_call_callback|apply keeps_modify_renderer].
  - apply keeps_response_end.
  - apply keeps_tick.
Qed.

Lemma keeps_assign_statusCode r code : keeps R (assign_statusCode r code).
Proof using Type*.
  apply keeps_bind; [apply keeps_get_view|]. intros v.
  destruct (response v); [apply keeps_throw|by apply keeps_modify_view..].
Qed.

Lemma keeps_setStatusCode a code : keeps R (setStatusCode a code).
Proof using Type*.
  apply keeps_bind; [apply keeps_get_view|]. intros v.
  apply keeps_assign_statusCode.
Qed.

Lemma keeps_setHeaders a headers : keeps R (setHeaders a headers).
Proof using Type*.
  apply keeps_for_each. intros kv.
  apply keeps_bind; [apply keeps_get_view|]. intros v.
  apply keeps_bind; [apply keeps_get_view|]. intros v'.
  destruct (response v'); [apply keeps_throw..|by apply keeps_modify_view].
Qed.

Lemma keeps_finish a (tmpl : option string) :
  keeps R (match tmpl with
           | None => cancelRender a >> response_end a
           | Some t => render a (Some t) true
           end).
Proof using Type*.
  destruct tmpl; [apply keeps_render|].
  apply keeps_bind; [apply keeps_cancelRender|]. intros _. apply keeps_response_end.
Qed.

Lemma keeps_run_status a st : keeps R (run_status a st).
Proof using Type*.
  destruct st; simpl.
  - apply keeps_bind; [apply keeps_setStatusCode|]. intros _.
    apply keeps_bind; [apply keeps_get_view|]. intros v.
    apply keeps_bind; [apply keeps_cancelRender|]. intros _.
    apply (keeps_finish (root v)).
  - apply keeps_bind; [apply keeps_setStatusCode|]. intros _.
    apply keeps_bind; [apply keeps_get_view|]. intros v.
    apply keeps_bind; [apply keeps_set|]. intros _.
    apply (keeps_finish (root v)).
  - apply keeps_bind; [apply keeps_setStatusCode|]. intros _.
    apply keeps_bind; [apply keeps_setHeaders|]. intros _.
    apply keeps_bind; [apply keeps_get_view|]. intros v.
    apply (keeps_finish (root v) None).
  - apply keeps_bind; [apply keeps_setStatusCode|]. intros _.
    apply keeps_bind; [apply keeps_setHeaders|]. intros _.
    apply keeps_bind; [apply keeps_get_view|]. intros v.
    apply (keeps_finish (root v) None).
  - apply keeps_bind; [apply keeps_setStatusCode|]. intros _.
    apply keeps_bind; [apply keeps_get_view|]. intros v.
    apply (keeps_finish (root v) None).
  - apply keeps_bind; [apply keeps_setStatusCode|]. intros _.
    apply keeps_bind; [apply keeps_setHeaders|]. intros _.
    apply keeps_bind; [apply keeps_get_view|]. intros v.
    apply (keeps_finish (root v) None).
  - apply keeps_bind; [apply keeps_setStatusCode|]. intros _.
    apply keeps_bind; [apply keeps_get_view|]. intros v.
    apply keeps_bind; [apply keeps_cancelRender|]. intros _.
    apply (keeps_finish (root v)).
Qed.
End keeps.

#[global] Instance same_identity_refl : Reflexive same_identity.
Proof. by intros v. Qed.

#[global] Instance same_identity_trans : Transitive same_identity.
Proof.
  intros v1 v2 v3 (Hp & Hr & Hc & Hd & He & Hk) (Hp' & Hr' & Hc' & Hd' & He' & Hk').
  repeat split; try congruence. eauto.
Qed.

#[global] Instance same_links_refl : Reflexive same_links.
Proof. by intros v. Qed.

#[global] Instance same_links_trans : Transitive same_links.
Proof.
  intros v1 v2 v3 (Hp & Hr & Hk) (Hp' & Hr' & Hk').
  repeat split; try congruence. eauto.
Qed.

(** X17. No render (forced or not), cancellation, renderer signal, [end],
    turn of the queue, status helper, [write] or [set] creates a view, and
    none changes the parent, root, content type, template directory or error
    handler of any view; the children map of a view can only lose entries
    through them.  Only [child], the constructor and assignments by the
    application change those. *)
Theorem operations_keep_identity :
  (∀ o, keeps same_identity (run_op o)) ∧
  (∀ a st, keeps same_identity (run_status a st)) ∧
  (∀ a chunk, keeps same_identity (response_write a chunk)) ∧
  (∀ a key val, keeps same_identity (set a key val)).
Proof.
  split; [|split; [|split]]; intros.
  - by apply keeps_run_op; try exact _.
  - by apply keeps_run_status; try exact _.
  - by apply keeps_response_write; try exact _.
  - by apply keeps_set; try exact _.
Qed.

(** ** The links between views *)

Lemma linked_keeps {A} (m : M A) w :
  keeps same_links m → linked (views w) → linked (views (world_of (m w))).
Proof.
  intros Hm Hl. destruct (Hm w) as [Hlen Hv]. intros c vc' Hc'.
  assert (Hlt : c < length (views w)) by (rewrite <- Hlen; by eapply lookup_lt_Some).
  destruct (lookup_lt_is_Some_2 _ _ Hlt) as [vc Hc].
  destruct (Hv c vc Hc) as (vc1 & Hc1 & Hp & Hr & Hk).
  replace vc1 with vc' in * by congruence. clear Hc1.
  destruct (Hl c vc Hc) as [Hup Hdown]. split.
  - rewrite Hp. destruct (parent vc) as [p|]; [|congruence].
    destruct Hup as (Hlt' & vp & Hvp & Hroot). split; [done|].
    destruct (Hv p vp Hvp) as (vp' & Hvp' & _ & Hr' & _).
    exists vp'. split; [done|]. congruence.
  - intros k c' Hkc. destruct (Hdown k c' (Hk k c' Hkc)) as (v1 & Hv1 & Hpar).
    destruct (Hv c' v1 Hv1) as (v1' & Hv1' & Hp1 & _).
    exists v1'. split; [done|]. congruence.
Qed.

Lemma linked_fresh vs ct t d x h :
  linked vs →
  linked (vs ++ [mkBifocals ∅ ∅ RENDER_NOT_CALLED None (length vs) ct t d x h]).
Proof.
  intros Hl c vc Hc.
  destruct (decide (c < length vs)) as [Hlt|Hge].
  - rewrite lookup_app_l in Hc by done. destruct (Hl c vc Hc) as [Hup Hdown]. split.
    + destruct (parent vc) as [p|]; [|done].
      destruct Hup as (Hp & vp & Hvp & Hroot). split; [done|].
      exists vp. split; [|done]. by apply lookup_app_l_Some.
    + intros k c' Hkc. destruct (Hdown k c' Hkc) as (v1 & Hv1 & Hpar).
      exists v1. split; [|done]. by apply lookup_app_l_Some.
  - rewrite lookup_app_r in Hc by lia.
    destruct (c - length vs) as [|i] eqn:Hi; simpl in Hc; [|done].
    injection Hc as <-. simpl. split; [lia|].
    intros k c' Hkc. by rewrite lookup_empty in Hkc.
Qed.

Lemma with_child_lookup vs a va key tmpl d v :
  vs !! a = Some va → vs !! d = Some v →
  ∃ v', with_child vs a va key tmpl !! d = Some v' ∧
        parent v' = parent v ∧ root v' = root v.
Proof.
  intros Ha Hd. pose proof (lookup_lt_Some _ _ _ Ha). pose proof (lookup_lt_Some _ _ _ Hd).
  destruct (decide (d = a)) as [->|Hne].
  - rewrite with_child_parent by done. eexists. split; [done|].
    replace v with va by congruence. done.
  - rewrite with_child_other by lia. by exists v.
Qed.

Lemma linked_child vs a va key tmpl :
  linked vs → vs !! a = Some va → linked (with_child vs a va key tmpl).
Proof.
  intros Hl Ha. pose proof (lookup_lt_Some _ _ _ Ha) as Hlt.
  intros c vc Hc.
  assert (Hcl : c < S (length vs)).
  { rewrite <- (with_child_length vs a va key tmpl). by eapply lookup_lt_Some. }
  destruct (decide (c = length vs)) as [->|Hcn].
  { rewrite with_child_new in Hc by done. injection Hc as <-. simpl. split.
    - split; [done|]. eexists. split; [by apply with_child_parent|done].
    - intros k c' Hkc. by rewrite lookup_empty in Hkc. }
  assert (Hup : ∀ v, vs !! c = Some v →
            match parent v with
            | Some p => p < c ∧ ∃ vp, with_child vs a va key tmpl !! p = Some vp ∧
                                      root vp = root v
            | None => root v = c
            end).
  { intros v Hv. destruct (Hl c v Hv) as [Hup _].
    destruct (parent v) as [p|]; [|done].
    destruct Hup as (Hp & vp & Hvp & Hroot). split; [done|].
    destruct (with_child_lookup vs a va key tmpl p vp Ha Hvp) as (vp' & Hvp' & _ & Hr').
    exists vp'. split; [done|]. congruence. }
  assert (Hdown : ∀ v k c', vs !! c = Some v → _child_views v !! k = Some c' →
            ∃ vc', with_child vs a va key tmpl !! c' = Some vc' ∧ parent vc' = Some c).
  { intros v k c' Hv Hkc. destruct (Hl c v Hv) as [_ Hdown].
    destruct (Hdown k c' Hkc) as (v1 & Hv1 & Hpar).
    destruct (with_child_lookup vs a va key tmpl c' v1 Ha Hv1) as (v1' & Hv1' & Hp' & _).
    exists v1'. split; [done|]. congruence. }
  destruct (decide (c = a)) as [->|Hca].
  - rewrite with_child_parent in Hc by done. injection Hc as <-. simpl. split.
    + by apply Hup.
    + intros k c' Hkc. destruct (decide (k = key)) as [->|Hk].
      * rewrite lookup_insert_eq in Hkc. injection Hkc as <-.
        eexists. split; [by apply with_child_new|done].
      * rewrite lookup_insert_ne in Hkc by done. by eapply Hdown.
  - rewrite with_child_other in Hc by done. split; [by apply Hup|].
    intros k c' Hkc. by eapply Hdown.
Qed.

Lemma run_calls_linked cs w : linked (views w) → linked (views (run_calls cs w)).
Proof.
  revert w. induction cs as [|c cs IH]; intros w Hl; simpl; [done|].
  apply IH. unfold exec.
  destruct c as [|a x|a fn|a key tmpl|a key val|a chunk|a st|o]; simpl.
  - unfold bind, new_Bifocals. simpl. by apply linked_fresh.
  - apply linked_keeps; [|done].
    destruct x; simpl; by apply keeps_modify_view; try exact _.
  - apply linked_keeps; [|done]. by apply keeps_modify_view; try exact _.
  - unfold bind. destruct (views w !! a) as [va|] eqn:Ha.
    + rewrite (child_Ret w a va key tmpl Ha). simpl. by apply linked_child.
    + unfold child, bind, get_view. by rewrite Ha.
  - apply linked_keeps; [|done]. by apply keeps_set; try exact _.
  - apply linked_keeps; [|done]. by apply keeps_response_write; try exact _.
  - apply linked_keeps; [|done]. by apply keeps_run_status; try exact _.
  - apply linked_keeps; [|done]. by apply keeps_run_op; try exact _.
Qed.

Lemma linked_root vs c vc :
  linked vs → vs !! c = Some vc →
  ∃ vr, vs !! root vc = Some vr ∧ parent vr = None ∧ root vr = root vc.
Proof.
  intros Hl. revert vc. induction (lt_wf c) as [c _ IH]. intros vc Hc.
  destruct (Hl c vc Hc) as [Hup _].
  destruct (parent vc) as [p|] eqn:Hp.
  - destruct Hup as (Hlt & vp & Hvp & Hroot).
    destruct (IH p Hlt vp Hvp) as (vr & Hvr & Hnone & Hrr).
    exists vr. rewrite <- Hroot. done.
  - exists vc. rewrite Hup. split; [done|]. split; [done|]. done.
Qed.

(** X18. In every arena built from nothing through the module (the
    constructor, [child], [set], [error], [write], renders, cancellations,
    signals, [end], turns of the queue, status helpers, and assignments to
    [content_type], [response], [dir] and [template]), the root of every
    view is a view without parent that is its own root; a view without
    parent is its own root, a view with a parent was created after it and
    has the same root; and every entry of a children map is a view whose
    parent is the holder of the map, with the holder's root.  So a status
    helper called anywhere in a tree acts on the response of the one view at
    the top of that tree. *)
Theorem built_arenas_are_linked cs c vc :
  views (run_calls cs empty_world) !! c = Some vc →
  (∃ vr, views (run_calls cs empty_world) !! root vc = Some vr ∧
         parent vr = None ∧ root vr = root vc) ∧
  match parent vc with
  | None => root vc = c
  | Some p => p < c ∧ ∃ vp, views (run_calls cs empty_world) !! p = Some vp ∧
                            root vp = root vc
  end ∧
  (∀ k c', _child_views vc !! k = Some c' →
           ∃ vc', views (run_calls cs empty_world) !! c' = Some vc' ∧
                  parent vc' = Some c ∧ root vc' = root vc).
Proof.
  intros Hc.
  assert (Hl : linked (views (run_calls cs empty_world))).
  { apply run_calls_linked. intros x vx Hx. done. }
  split; [by eapply linked_root|].
  destruct (Hl c vc Hc) as [Hup Hdown]. split; [exact Hup|].
  intros k c' Hkc. destruct (Hdown k c' Hkc) as (vc' & Hvc' & Hpar).
  exists vc'. split; [done|]. split; [done|].
  destruct (Hl c' vc' Hvc') as [Hup' _]. rewrite Hpar in Hup'.
  destruct Hup' as (_ & vp & Hvp & Hroot). congruence.
Qed.

Lemma built_arenas_are_linked_witness :
  ∃ vr, views (run_calls [call_new; call_child 0 "header" None; call_child 1 "nav" None;
                          call_op (op_cancelRender 0)] empty_world) !! 0 = Some vr ∧
        parent vr = None ∧ root vr = 0.
Proof.
  destruct (built_arenas_are_linked
              [call_new; call_child 0 "header" None; call_child 1 "nav" None;
               call_op (op_cancelRender 0)] 2
              (mkBifocals ∅ ∅ RENDER_CANCELED (Some 1) 0 None None None
                          (FakeResponse "" "nav" None) bifocals_defaultError))
    as [Hroot _]; [vm_compute; reflexivity|].
  exact Hroot.
Defined.



(** ** Filling the data ([part_001]) *)





(** ** A render that waited *)



(** ** Error handlers and late renders *)

(** X22. A child takes the error handler its parent has when [child] is
    called, and keeps it: [error (fn)] on the parent after the child was
    created changes the handler of the parent only, while a child created
    after [error (fn)] has [fn]. *)
Theorem child_inherits_handler_at_creation w p vp key tmpl fn :
  views w !! p = Some vp →
  (∃ w', (let! c := child p key tmpl in error p fn >> ret c) w
         = Ret (length (views w)) w' ∧
         (_error <$> views w' !! length (views w)) = Some (_error vp) ∧
         (_error <$> views w' !! p) = Some fn) ∧
  (∃ w', (error p fn >> child p key tmpl) w = Ret (length (views w)) w' ∧
         (_error <$> views w' !! length (views w)) = Some fn).
Proof.
  intros Hp. pose proof (lookup_lt_Some _ _ _ Hp) as Hlt. split.
  - set (vs1 := with_child (views w) p vp key tmpl).
    set (vp1 := with_child_views (<[key := length (views w)]> (_child_views vp)) vp).
    assert (Hp1 : vs1 !! p = Some vp1) by (by apply with_child_parent).
    exists (with_views (<[p := with_error fn vp1]> vs1) w). split; [|split].
    + erewrite bind_Ret by (by apply child_Ret). cbv beta iota. fold vs1.
      unfold error. by erewrite bind_Ret by (apply modify_view_Ret; exact Hp1).
    + simpl. rewrite list_lookup_insert_ne by lia.
      unfold vs1. by rewrite with_child_new.
    + simpl. by rewrite (lookup_modified _ _ _ _ Hp1).
  - set (vp1 := with_error fn vp).
    set (w1 := with_views (<[p := vp1]> (views w)) w).
    assert (Hp1 : views w1 !! p = Some vp1) by (by eapply lookup_modified).
    assert (Hlen : length (views w1) = length (views w)) by (simpl; apply length_insert).
    exists (with_views (with_child (views w1) p vp1 key tmpl) w1). split.
    + unfold error. erewrite bind_Ret by (apply modify_view_Ret; exact Hp). cbv beta iota.
      fold vp1 w1. rewrite (child_Ret w1 p vp1 key tmpl Hp1). by rewrite Hlen.
    + change (views (with_views ?x _)) with x. rewrite <- Hlen.
      rewrite with_child_new by (rewrite Hlen; lia). done.
Qed.

Lemma child_inherits_handler_at_creation_witness :
  ∃ w', (let! c := child 0 "late" None in error 0 (user_handler 5) >> ret c) page_world
        = Ret 4 w' ∧
        (_error <$> views w' !! 4) = Some (user_handler 0) ∧
        (_error <$> views w' !! 0) = Some (user_handler 5).
Proof.
  destruct (child_inherits_handler_at_creation page_world 0
              (mkBifocals {["header" := 1; "body" := 2]} ∅ RENDER_NOT_CALLED None 0 html
                          None (Some "tpl/") (ServerResponse None ∅ [] 0) (user_handler 0))
              "late" None (user_handler 5)) as [Hafter _];
    [vm_compute; reflexivity|].
  exact Hafter.
Defined.

(** X23. A render of a parent that a child's [end ()] has put on the queue
    is dropped when the parent is canceled before the queue runs.  If the
    next task of the queue is the render of the parent of [c], and
    [cancelRender] is called on the parent or on a view above it in a
    well-formed arena, then the turn of the queue that takes the task
    renders nothing: the task is removed, and no renderer is built or
    called. *)
Theorem canceled_parent_drops_queued_render w a c vc p ts :
  wf_views (views w) →
  a < length (views w) →
  ticks w = render_parent_of c :: ts →
  views w !! c = Some vc →
  parent vc = Some p →
  desc (views w) a p →
  ∃ vs', cancelRender a w = Ret tt (with_views vs' w) ∧
         (cancelRender a >> tick) w = Ret tt (with_ticks ts (with_views vs' w)) ∧
         canceled_at vs' p.
Proof.
  intros Hwf Hlt Hq Hc Hpar Hd.
  destruct (cancelRender_Ret w a Hwf Hlt) as (vs' & Hrun & Hlen & Hm & Hcan).
  exists vs'. split; [done|]. split; [|by apply Hcan].
  mstep Hrun. unfold tick. cbn [ticks with_views]. rewrite Hq.
  assert (Hc' : ∃ vc', vs' !! c = Some vc' ∧ parent vc' = Some p).
  { destruct (Hm c) as [Heq|[_ (v0 & Hv0 & Hv1)]].
    - exists vc. split; [congruence|done].
    - exists (canceled v0). split; [done|]. simpl. congruence. }
  destruct Hc' as (vc' & Hc' & Hpar').
  destruct (Hcan p Hd) as (vp' & Hp' & Hst & _).
  unfold run_task.
  erewrite bind_Ret by (apply get_view_Ret; exact Hc'). cbv beta iota. rewrite Hpar'.
  change (render p None false) with (render_unforced p None).
  by apply (render_unforced_canceled _ p vp').
Qed.

Lemma canceled_parent_drops_queued_render_witness :
  ∃ vs', (cancelRender 0 >> tick)
           (exec (render 0 (Some "index.html") false >> response_end 1) body_done)
         = Ret tt (with_ticks []
                     (with_views vs'
                        (exec (render 0 (Some "index.html") false >> response_end 1)
                              body_done))).
Proof.
  destruct (canceled_parent_drops_queued_render
              (exec (render 0 (Some "index.html") false >> response_end 1) body_done)
              0 1
              (mkBifocals {["nav" := 3]} ∅ RENDER_COMPLETE (Some 0) 0 html
                          (Some "head.html") (Some "tpl/")
                          (FakeResponse "" "header" None) (user_handler 0))
              0 []) as (vs' & _ & Hrun & _);
    [apply wf_viewsb_spec; vm_compute; reflexivity|vm_compute; lia
    |vm_compute; reflexivity|vm_compute; reflexivity|reflexivity|constructor|].
  by exists vs'.
Defined.
